(** * modbus-sync-worksites: a shallow embedding of the bridge's control loop

    The development follows the two JavaScript sources of the repository:
    [api-client.js] (class [APIClient]) and [modbus-sync-worksites.js]
    (grouping, debouncer, Modbus group engine, sync cycle).

    Conventions.
    - JavaScript numbers that the program only ever uses as integers
      (offsets, ports, millisecond timestamps, HTTP statuses) are [Z].
    - [Map] objects keyed by strings are [gmap string _]; the one [Map]
      whose iteration order is observable ([groupsMap]) is an association
      list in insertion order.
    - [DEBUG_LOG] is the constant [false], so [dlog] never prints and is
      left out; [console.error] and [console.log] are events of the trace. *)

From Stdlib Require Import ZArith Ascii String List Bool Lia.
From stdpp Require Import base option list gmap strings pretty.

Local Open Scope string_scope.
Local Open Scope Z_scope.

(** ** Configuration constants ([modbus-sync-worksites.js]) *)

Definition MODBUS_REQUEST_TIMEOUT_MS : Z := 1000.
Definition POLL_INTERVAL_MS : Z := 500.
Definition RECONNECT_BACKOFF_MS : Z := 5000.
Definition FILL_DEBOUNCE_MS : Z := 2000.

Definition RDS_HOST : string := "http://10.6.44.2:8080".
Definition RDS_USER : string := "admin".
Definition RDS_PASS : string := "123456".
Definition RDS_LANG : string := "en".

(** The two logical states, [EMPTY] and [FILLED]. *)
Inductive LogicalState : Type := EMPTY | FILLED.

(** One entry of [SITES].  The field [default] of the source is [sdefault]
    here ([default] is the name of a function on options). *)
Record Site : Type := mkSite {
  siteId : string;
  ip : string;
  port : Z;
  slaveId : Z;
  offset : Z;
  sdefault : LogicalState
}.

Definition SITES : list Site :=
  [ mkSite "PICK-01" "10.6.44.70" 502 255 9 EMPTY ].

(** ** Grouping by (ip, port, slaveId) *)

(** The object built inside [groupSitesByConnection] for each key. *)
Record GroupAcc : Type := mkAcc {
  a_key : string;
  a_ip : string;
  a_port : Z;
  a_slaveId : Z;
  a_sites : list Site;
  a_minOffset : Z;
  a_maxOffset : Z
}.

(** The object returned for each group ([length] of the source is
    [g_length]). *)
Record Group : Type := mkGroup {
  key : string;
  g_ip : string;
  g_port : Z;
  g_slaveId : Z;
  sites : list Site;
  minOffset : Z;
  g_length : Z
}.

(** The template literal [`${s.ip}:${s.port}:${s.slaveId}`]. *)
Definition connKey (s : Site) : string :=
  ip s ++ ":" ++ pretty (port s) ++ ":" ++ pretty (slaveId s).

(** [groupsMap.get(key)] on the insertion-ordered map. *)
Fixpoint map_get (k : string) (m : list (string * GroupAcc)) : option GroupAcc :=
  match m with
  | [] => None
  | (k', g) :: m' => if String.eqb k k' then Some g else map_get k m'
  end.

(** Mutation of the object stored under [k]: the entry keeps its place. *)
Fixpoint map_mutate (k : string) (g : GroupAcc) (m : list (string * GroupAcc))
  : list (string * GroupAcc) :=
  match m with
  | [] => []
  | (k', g') :: m' =>
      if String.eqb k k' then (k', g) :: m' else (k', g') :: map_mutate k g m'
  end.

(** [g.sites.push(s)] and the two updates of the bounds that follow it. *)
Definition pushSite (g0 : GroupAcc) (s : Site) : GroupAcc :=
  let g1 := mkAcc (a_key g0) (a_ip g0) (a_port g0) (a_slaveId g0)
                  (a_sites g0 ++ [s])%list (a_minOffset g0) (a_maxOffset g0) in
  let g2 := if offset s <? a_minOffset g1
            then mkAcc (a_key g1) (a_ip g1) (a_port g1) (a_slaveId g1)
                       (a_sites g1) (offset s) (a_maxOffset g1)
            else g1 in
  if a_maxOffset g2 <? offset s
  then mkAcc (a_key g2) (a_ip g2) (a_port g2) (a_slaveId g2)
             (a_sites g2) (a_minOffset g2) (offset s)
  else g2.

(** The body of the [for (const s of sites)] loop: the group object is
    looked up, created and stored when there is none, and then mutated. *)
Definition addSite (m : list (string * GroupAcc)) (s : Site)
  : list (string * GroupAcc) :=
  let k := connKey s in
  match map_get k m with
  | Some g => map_mutate k (pushSite g s) m
  | None =>
      (m ++ [(k, pushSite (mkAcc k (ip s) (port s) (slaveId s) [] (offset s) (offset s))
                          s)])%list
  end.

Definition finishGroup (g : GroupAcc) : Group :=
  mkGroup (a_key g) (a_ip g) (a_port g) (a_slaveId g) (a_sites g)
          (a_minOffset g) (a_maxOffset g - a_minOffset g + 1).

Definition groupSitesByConnection (sites : list Site) : list Group :=
  map finishGroup (map snd (fold_left addSite sites [])).

Definition GROUPS : list Group := groupSitesByConnection SITES.

(** The request issued by [readInputsForGroup]:
    [startAddr = group.minOffset] and
    [readLength = group.sites.length === 1 ? 1 : group.length]. *)
Definition startAddr (g : Group) : Z := minOffset g.

Definition readLength (g : Group) : Z :=
  if Nat.eqb (length (sites g)) 1 then 1 else g_length g.

(** ** The debouncer *)

(** [{ lastOppositeStartTs: number | null, effectiveVal: boolean }]. *)
Record DebounceState : Type := mkDebounce {
  lastOppositeStartTs : option Z;
  effectiveVal : bool
}.

Definition defaultToBool (def : LogicalState) : bool :=
  match def with FILLED => true | EMPTY => false end.

(** The state [st] the function works on: the stored one, or the one it
    creates and stores when the site has none. *)
Definition stateOf (site : Site) (m : gmap string DebounceState) : DebounceState :=
  match m !! siteId site with
  | Some st => st
  | None => mkDebounce None (defaultToBool (sdefault site))
  end.

(** [updateDebouncedState(site, rawVal, now)]: returns the effective value
    and the map after the in-place update of [st]. *)
Definition updateDebouncedState (site : Site) (rawVal : bool) (now : Z)
    (m : gmap string DebounceState) : bool * gmap string DebounceState :=
  let defaultVal := defaultToBool (sdefault site) in
  let opposite := negb defaultVal in
  let st := stateOf site m in
  let st' :=
    if Bool.eqb rawVal defaultVal then mkDebounce None defaultVal
    else match lastOppositeStartTs st with
         | None => mkDebounce (Some now) defaultVal
         | Some t =>
             if FILL_DEBOUNCE_MS <=? now - t
             then mkDebounce (Some t) opposite
             else st
         end in
  (effectiveVal st', <[siteId site := st']> m).

(** [resetDebounceForSites(sites)]. *)
Definition resetDebounceForSites (ss : list Site) (m : gmap string DebounceState)
  : gmap string DebounceState :=
  fold_left (fun acc s => delete (siteId s) acc) ss m.

(** ** The world outside the process *)

(** Values decoded by [JSON.parse] / [response.json()]. *)
#[warnings="-register-all"]
Inductive Json : Type :=
| JNull
| JBool (b : bool)
| JNumber (n : Z)
| JString (s : string)
| JArray (items : list Json)
| JObject (names : list string) (values : list Json).

(** What the callback of [readDiscreteInputs] delivers: an error, a value
    that is not of the form [{data: [...]}], or the array of bits. *)
Inductive ReadReply : Type :=
| ReadError (message : string)
| ReadMalformed
| ReadData (data : list bool).

(** An HTTP response as the client looks at it: the status, the
    [set-cookie] header ([null] when there is none) and the body text
    ([response.text()] on a response that arrived always delivers it). *)
Record Response : Type := mkResponse {
  status : Z;
  setCookie : option string;
  body : string
}.

Inductive FetchReply : Type :=
| FetchRejects (message : string)
| FetchResolves (r : Response).

(** Everything the program asks of its surroundings.  Each interaction
    consumes one index of the run ([tick] of the state below), so a [World]
    is an arbitrary schedule of answers; [md5] and [JSON_parse] are the two
    library functions the client calls. *)
Record World : Type := mkWorld {
  md5 : string -> string;
  JSON_parse : string -> option Json;
  now_at : nat -> Z;
  connect_at : nat -> option string;
  read_at : nat -> ReadReply;
  close_throws_at : nat -> bool;
  fetch_at : nat -> FetchReply
}.

(** The argument of [JSON.stringify] in a request body (the serialised
    text itself is not modelled). *)
Inductive Payload : Type :=
| LoginData (username password : string)
| WorkSiteIds (workSiteIds : list string).

(** The [options] object handed to [fetch]. *)
Record Options : Type := mkOptions {
  method : string;
  headers : option (gmap string string);
  payload : option Payload
}.

(** Thrown values. *)
Inductive Exn : Type :=
| Error (message : string)
| FetchError (message : string)
| LoginStatusError (st : Z)
| MissingSessionCookie
| SyntaxError
| ApiStatusError (st : Z) (text : option string).

(** Entry points of [APIClient] used by the sync cycle. *)
Inductive ApiMethod : Type :=
| MLogin
| MSetWorkSiteFilled (worksiteName : string)
| MSetWorkSiteEmpty (worksiteName : string).

Inductive LogLine : Type :=
| LogLoggedIn (sessionId : string)
| LogSessionExpired
| LogBody400 (text : string)
| LogInitialLoginFailed (e : Exn)
| LogGroupError (key message : string)
| LogReadFailed (key : string) (e : Exn)
| LogMissingInput (siteId : string) (idx offset : Z) (def : LogicalState)
| LogWriteFailed (siteId context : string) (e : Exn).

(** Observable actions, in the order they happen. *)
Inductive Event : Type :=
| EvConnectTCP (ip : string) (port : Z)
| EvReadDiscreteInputs (key : string) (addr len : Z)
| EvClose (key : string)
| EvFetch (url : string) (o : Options)
| EvInvoke (m : ApiMethod)
| EvConsoleLog (l : LogLine)
| EvConsoleError (l : LogLine).

(** ** Process state *)

(** A connected [ModbusRTU] object: where it is connected to, the request
    timeout and the unit id set on it. *)
Record Client : Type := mkClient {
  c_ip : string;
  c_port : Z;
  c_timeout : Z;
  c_id : Z
}.

(** [{ client | null, lastAttemptMs }] ([lastAttempt] in the older file). *)
Record ModbusState : Type := mkModbusState {
  client : option Client;
  lastAttemptMs : Z
}.

(** The fields of an [APIClient] instance. *)
Record APIClient : Type := mkAPIClient {
  apiHost : string;
  username : string;
  password : string;
  sessionId : option string;
  language : string
}.

Record St : Type := mkSt {
  modbusStates : gmap string ModbusState;
  debounceStates : gmap string DebounceState;
  api : APIClient;
  tick : nat;
  trace : list Event
}.

(** A computation either returns or throws, and leaves a state. *)
Inductive Res (A : Type) : Type :=
| Ret (a : A)
| Throw (e : Exn).
Arguments Ret {A} a.
Arguments Throw {A} e.

Definition M (A : Type) : Type := St -> Res A * St.

Definition ret {A} (a : A) : M A := fun s => (Ret a, s).
Definition throw {A} (e : Exn) : M A := fun s => (Throw e, s).
Definition bind {A B} (m : M A) (k : A -> M B) : M B :=
  fun s => match m s with
           | (Ret a, s') => k a s'
           | (Throw e, s') => (Throw e, s')
           end.
Definition try_catch {A} (m : M A) (h : Exn -> M A) : M A :=
  fun s => match m s with
           | (Ret a, s') => (Ret a, s')
           | (Throw e, s') => h e s'
           end.

Notation "'let*' x ':=' m 'in' k" := (bind m (fun x => k))
  (at level 10, x name, m at level 100, k at level 200).
Notation "m ';;' k" := (bind m (fun _ => k))
  (at level 100, k at level 200, right associativity).

Definition emit (e : Event) : M unit :=
  fun s => (Ret tt, mkSt (modbusStates s) (debounceStates s) (api s) (tick s)
                         (trace s ++ [e])%list).

(** One interaction with the world: its index is used up. *)
Definition ask {A} (f : nat -> A) : M A :=
  fun s => (Ret (f (tick s)),
            mkSt (modbusStates s) (debounceStates s) (api s) (S (tick s)) (trace s)).

Definition getApi : M APIClient := fun s => (Ret (api s), s).
Definition setSessionId (sid : option string) : M unit :=
  fun s => (Ret tt,
            mkSt (modbusStates s) (debounceStates s)
                 (mkAPIClient (apiHost (api s)) (username (api s)) (password (api s))
                              sid (language (api s)))
                 (tick s) (trace s)).

Definition getModbusState (k : string) : M (option ModbusState) :=
  fun s => (Ret (modbusStates s !! k), s).
Definition setModbusState (k : string) (ms : ModbusState) : M unit :=
  fun s => (Ret tt, mkSt (<[k := ms]> (modbusStates s)) (debounceStates s) (api s)
                         (tick s) (trace s)).

Definition withDebounce {A} (f : gmap string DebounceState -> A * gmap string DebounceState)
  : M A :=
  fun s => let '(a, d) := f (debounceStates s) in
           (Ret a, mkSt (modbusStates s) d (api s) (tick s) (trace s)).

(** [for (const x of xs) body(x)], where [body] returns on [continue]. *)
Fixpoint forEach {A} (xs : list A) (body : A -> M unit) : M unit :=
  match xs with
  | [] => ret tt
  | x :: xs' => body x ;; forEach xs' body
  end.

(** ** [api-client.js]: class [APIClient] *)

(** The regular expression [/JSESSIONID=([^;]+)/] applied with
    [String.prototype.match]: the leftmost place where the literal is
    followed by at least one character other than [;], and the longest run
    of such characters from there. *)
Fixpoint strip_prefix (p s : string) : option string :=
  match p, s with
  | EmptyString, _ => Some s
  | String a p', String b s' => if Ascii.eqb a b then strip_prefix p' s' else None
  | String _ _, EmptyString => None
  end.

Fixpoint upto_semicolon (s : string) : string :=
  match s with
  | EmptyString => EmptyString
  | String c s' => if Ascii.eqb c ";"%char then EmptyString else String c (upto_semicolon s')
  end.

Definition match_here (s : string) : option string :=
  match strip_prefix "JSESSIONID=" s with
  | Some rest =>
      match upto_semicolon rest with
      | EmptyString => None
      | tok => Some tok
      end
  | None => None
  end.

Fixpoint match_JSESSIONID (s : string) : option string :=
  match match_here s with
  | Some tok => Some tok
  | None =>
      match s with
      | EmptyString => None
      | String _ s' => match_JSESSIONID s'
      end
  end.

(** [response.ok]. *)
Definition ok (r : Response) : bool := (200 <=? status r) && (status r <=? 299).

(** [`JSESSIONID=${this.sessionId}`]. *)
Definition cookieOf (sid : option string) : string :=
  "JSESSIONID=" ++ match sid with Some t => t | None => "null" end.

(** Truthiness of [this.sessionId]: neither [null] nor the empty string. *)
Definition hasSession (sid : option string) : bool :=
  match sid with
  | Some t => negb (String.eqb t "")
  | None => false
  end.

(** What [apiCall] resolves to: [null], a decoded value, or the raw text. *)
Inductive ApiValue : Type :=
| VNull
| VJson (j : Json)
| VText (s : string).

(** [[401, 403].includes(response.status)]. *)
Definition sessionExpired (r : Response) : bool :=
  (status r =? 401) || (status r =? 403).

Section APIClientMethods.

Variable W : World.

Definition fetch (url : string) (o : Options) : M Response :=
  emit (EvFetch url o) ;;
  let* reply := ask (fetch_at W) in
  match reply with
  | FetchRejects msg => throw (FetchError msg)
  | FetchResolves r => ret r
  end.

(** [response.json()]. *)
Definition response_json (r : Response) : M Json :=
  match JSON_parse W (body r) with
  | Some j => ret j
  | None => throw SyntaxError
  end.

Definition encryptPassword (pw : string) : string := md5 W pw.

(** [async login()]. *)
Definition login : M unit :=
  emit (EvInvoke MLogin) ;;
  let* this := getApi in
  let url := apiHost this ++ "/admin/login" in
  let* response :=
    fetch url (mkOptions "POST"
                 (Some {[ "Content-Type" := "application/json" ]})
                 (Some (LoginData (username this) (encryptPassword (password this))))) in
  if negb (ok response) then throw (LoginStatusError (status response))
  else
    let matched := match setCookie response with
                   | Some h => match_JSESSIONID h
                   | None => None
                   end in
    setSessionId matched ;;
    match matched with
    | None => throw MissingSessionCookie
    | Some sid =>
        response_json response ;;
        emit (EvConsoleLog (LogLoggedIn sid))
    end.

(** Step 2 of the second [apiCall]: the three header assignments. *)
Definition requestHeaders (this : APIClient) (options : Options)
  : gmap string string :=
  <[ "Language" := "en" ]>
    (<[ "Cookie" := cookieOf (sessionId this) ]>
       (<[ "Content-Type" := "application/json" ]>
          (default ∅ (headers options)))).

(** Steps 4 and 5 of the second [apiCall]: a status that is not [ok] is
    thrown (the body of a 400 is logged first), anything else is decoded
    with [response.json()]. *)
Definition settle (response : Response) : M ApiValue :=
  if negb (ok response) then
    (if status response =? 400
     then emit (EvConsoleError (LogBody400 (body response)))
     else ret tt) ;;
    throw (ApiStatusError (status response) None)
  else
    let* j := response_json response in
    ret (VJson j).

(** The second [apiCall] of the class body.  A class keeps the last of
    two methods of one name, so this is the method every caller runs. *)
Definition apiCall (path : string) (options : Options) : M ApiValue :=
  let* this0 := getApi in
  (if hasSession (sessionId this0) then ret tt else login) ;;
  let* this := getApi in
  let h := requestHeaders this options in
  let url := apiHost this ++ path in
  let* first := fetch url (mkOptions (method options) (Some h) (payload options)) in
  let* response :=
    if sessionExpired first then
      emit (EvConsoleLog LogSessionExpired) ;;
      login ;;
      let* this' := getApi in
      fetch url (mkOptions (method options)
                   (Some (<[ "Cookie" := cookieOf (sessionId this') ]> h))
                   (payload options))
    else ret first in
  settle response.

(** The first [apiCall] of the class body, which the second one replaces. *)
Definition apiCall_overridden (path : string) (options : Options) : M ApiValue :=
  let* this := getApi in
  let url := apiHost this ++ path in
  let h0 := default ∅ (headers options) in
  let h1 := if hasSession (sessionId this)
            then <[ "Cookie" := cookieOf (sessionId this) ]> h0
            else h0 in
  let h := match h1 !! "Language", h1 !! "language" with
           | None, None =>
               <[ "Language" := if String.eqb (language this) "" then "en"
                                else language this ]> h1
           | _, _ => h1
           end in
  let* first := fetch url (mkOptions (method options) (Some h) (payload options)) in
  let* response :=
    if sessionExpired first then
      emit (EvConsoleLog LogSessionExpired) ;;
      login ;;
      let* this' := getApi in
      let h' := if hasSession (sessionId this')
                then <[ "Cookie" := cookieOf (sessionId this') ]> h
                else h in
      fetch url (mkOptions (method options) (Some h') (payload options))
    else ret first in
  if negb (ok response) then
    throw (ApiStatusError (status response) (Some (body response)))
  else
    let text := body response in
    if String.eqb text "" then ret VNull
    else match JSON_parse W text with
         | Some j => ret (VJson j)
         | None => ret (VText text)
         end.

Definition setWorkSiteFilled (worksiteName : string) : M ApiValue :=
  emit (EvInvoke (MSetWorkSiteFilled worksiteName)) ;;
  apiCall "/api/work-sites/worksiteFiled"
          (mkOptions "POST" None (Some (WorkSiteIds [worksiteName]))).

Definition setWorkSiteEmpty (worksiteName : string) : M ApiValue :=
  emit (EvInvoke (MSetWorkSiteEmpty worksiteName)) ;;
  apiCall "/api/work-sites/worksiteUnFiled"
          (mkOptions "POST" None (Some (WorkSiteIds [worksiteName]))).

End APIClientMethods.

(** ** [modbus-sync-worksites.js]: what the two copies share *)

Definition showState (d : LogicalState) : string :=
  match d with EMPTY => "EMPTY" | FILLED => "FILLED" end.

(** [inputs[idx]], with [undefined] as [None]. *)
Definition inputAt (inputs : list bool) (idx : Z) : option bool :=
  if idx <? 0 then None else inputs !! Z.to_nat idx.

Section SyncShared.

Variable W : World.

(** [writeWorksiteState(api, site, filledBool, context)]. *)
Definition writeWorksiteState (site : Site) (filledBool : bool) (context : string)
  : M unit :=
  try_catch
    ((if filledBool then setWorkSiteFilled W (siteId site)
      else setWorkSiteEmpty W (siteId site)) ;;
     ret tt)
    (fun err => emit (EvConsoleError (LogWriteFailed (siteId site) context err))).

(** [setSitesDefault(api, sites, context)]. *)
Definition setSitesDefault (ss : list Site) (context : string) : M unit :=
  forEach ss (fun s =>
    let assumeFilled := defaultToBool (sdefault s) in
    let reason := "set to default (" ++ showState (sdefault s) ++ ") because "
                  ++ context in
    writeWorksiteState s assumeFilled reason).

(** The first statement of [syncOnce]: log in when there is no session. *)
Definition initialLogin : M unit :=
  let* a := getApi in
  if hasSession (sessionId a) then ret tt
  else try_catch (login W)
                 (fun err => emit (EvConsoleError (LogInitialLoginFailed err))).

(** The body of the inner [for (const s of sites)] of [syncOnce]. *)
Definition syncSite (group : Group) (inputs : list bool) (s : Site) : M unit :=
  let idx := offset s - minOffset group in
  match inputAt inputs idx with
  | None =>
      let ctx := "Missing Modbus input value (idx=" ++ pretty idx ++ ") for site "
                 ++ siteId s ++ ", probable configuration error (offset="
                 ++ pretty (offset s) ++ "). Using default state ("
                 ++ showState (sdefault s) ++ ")." in
      emit (EvConsoleError (LogMissingInput (siteId s) idx (offset s) (sdefault s))) ;;
      withDebounce (fun d => (tt, resetDebounceForSites [s] d)) ;;
      setSitesDefault [s] ctx
  | Some rawVal =>
      let* now := ask (now_at W) in
      let* effectiveBool := withDebounce (updateDebouncedState s rawVal now) in
      writeWorksiteState s effectiveBool "based on debounced Modbus signal"
  end.

(** The request in the [try] block of [readInputsForGroup]: a rejected
    promise is a throw. *)
Definition readDiscreteInputs (group : Group) : M (option (list bool)) :=
  emit (EvReadDiscreteInputs (key group) (startAddr group) (readLength group)) ;;
  let* reply := ask (read_at W) in
  match reply with
  | ReadError msg => throw (Error msg)
  | ReadMalformed => ret None
  | ReadData data => ret (Some data)
  end.

(** [try { state.client.close(); } catch (_) {}]. *)
Definition closeQuietly (group : Group) : M unit :=
  emit (EvClose (key group)) ;;
  let* _ := ask (close_throws_at W) in
  ret tt.

(** [new ModbusRTU()], [setTimeout], [connectTCP], [setID]. *)
Definition connect (group : Group) : M Client :=
  emit (EvConnectTCP (g_ip group) (g_port group)) ;;
  let* err := ask (connect_at W) in
  match err with
  | Some msg => throw (Error msg)
  | None => ret (mkClient (g_ip group) (g_port group) MODBUS_REQUEST_TIMEOUT_MS
                          (g_slaveId group))
  end.

End SyncShared.

(** [String(err)] of an error object whose message is empty: the name of
    its class alone, ["Error"] for [new Error('')]. *)
Definition nameIfEmpty (name message : string) : string :=
  if String.eqb message "" then name else message.

(** [err && err.message ? err.message : String(err)] for the errors the
    Modbus side raises: an empty message is falsy, so the text is then
    [String(err)] (the global [fetch] rejects with a [TypeError]).  The
    client's own errors are kept as values. *)
Definition messageOf (e : Exn) : string :=
  match e with
  | Error m => nameIfEmpty "Error" m
  | FetchError m => nameIfEmpty "TypeError" m
  | LoginStatusError _ => "login failed"
  | MissingSessionCookie => "no JSESSIONID"
  | SyntaxError => "Unexpected end of JSON input"
  | ApiStatusError _ _ => "API call failed"
  end.

(** ** The copy of [modbus-sync-worksites.js] whose read returns a status *)

Module Tagged.

(** [{ status: "ok", inputs }], [{ status: "backoff" }],
    [{ status: "error", message }]. *)
Inductive ReadResult : Type :=
| StatusOk (inputs : list bool)
| StatusBackoff
| StatusError (message : string).

Section WithWorld.

Variable W : World.

(** Step 1 of [readInputsForGroup]: the client to read with, or the
    result to return at once. *)
Definition ensureClient (group : Group) (state : ModbusState) (now : Z)
  : M (ReadResult + Client) :=
  match client state with
  | Some c => ret (inr c)
  | None =>
      let sinceLast := now - lastAttemptMs state in
      if negb (lastAttemptMs state =? 0) && (sinceLast <? RECONNECT_BACKOFF_MS)
      then ret (inl StatusBackoff)
      else
        setModbusState (key group) (mkModbusState None now) ;;
        try_catch
          (let* c := connect W group in
           setModbusState (key group) (mkModbusState (Some c) now) ;;
           ret (inr c))
          (fun err => ret (inl (StatusError ("connect failed: " ++ messageOf err))))
  end.

(** [async function readInputsForGroup(group)]. *)
Definition readInputsForGroup (group : Group) : M ReadResult :=
  let* found := getModbusState (key group) in
  let* now := ask (now_at W) in
  let state := match found with
               | Some st => st
               | None => mkModbusState None 0
               end in
  match found with
  | Some _ => ret tt
  | None => setModbusState (key group) state
  end ;;
  let* r := ensureClient group state now in
  match r with
  | inl res => ret res
  | inr _ =>
      try_catch
        (let* raw := readDiscreteInputs W group in
         match raw with
         | None => ret (StatusError "invalid readDiscreteInputs response format")
         | Some inputs => ret (StatusOk inputs)
         end)
        (fun err =>
           closeQuietly W group ;;
           let* later := ask (now_at W) in
           setModbusState (key group) (mkModbusState None later) ;;
           ret (StatusError ("readDiscreteInputs failed: " ++ messageOf err)))
  end.

(** The body of [for (const group of GROUPS)] in [syncOnce]. *)
Definition syncGroup (group : Group) : M unit :=
  let* result := readInputsForGroup group in
  match result with
  | StatusBackoff => ret tt
  | StatusError message =>
      emit (EvConsoleError (LogGroupError (key group) message)) ;;
      withDebounce (fun d => (tt, resetDebounceForSites (sites group) d)) ;;
      setSitesDefault W (sites group)
        ("Modbus error for group " ++ key group ++ ": " ++ message)
  | StatusOk inputs => forEach (sites group) (syncSite W group inputs)
  end.

(** [async function syncOnce(api)], over the groups fixed at startup. *)
Definition syncOnce (groups : list Group) : M unit :=
  initialLogin W ;;
  forEach groups syncGroup.

End WithWorld.

End Tagged.

(** ** The copy of [modbus-sync-worksites.js] whose read throws *)

Module Throwing.

Section WithWorld.

Variable W : World.

(** [async function readInputsForGroup(group)]. *)
Definition readInputsForGroup (group : Group) : M (list bool) :=
  let* found := getModbusState (key group) in
  let* now := ask (now_at W) in
  let state := match found with
               | Some st => st
               | None => mkModbusState None 0
               end in
  match found with
  | Some _ => ret tt
  | None => setModbusState (key group) state
  end ;;
  match client state with
  | Some _ => ret tt
  | None =>
      if now - lastAttemptMs state <? RECONNECT_BACKOFF_MS
      then throw (Error ("Modbus " ++ key group ++ ": reconnect backoff ("
                         ++ pretty (now - lastAttemptMs state) ++ "ms < "
                         ++ pretty RECONNECT_BACKOFF_MS ++ "ms)"))
      else
        setModbusState (key group) (mkModbusState None now) ;;
        let* c := try_catch (connect W group) (fun err => throw err) in
        setModbusState (key group) (mkModbusState (Some c) now)
  end ;;
  try_catch
    (let* raw := readDiscreteInputs W group in
     match raw with
     | None => throw (Error ("Invalid response format from readDiscreteInputs for "
                             ++ key group))
     | Some inputs => ret inputs
     end)
    (fun err =>
       emit (EvConsoleError (LogReadFailed (key group) err)) ;;
       closeQuietly W group ;;
       let* later := ask (now_at W) in
       setModbusState (key group) (mkModbusState None later) ;;
       throw err).

(** The body of [for (const group of GROUPS)] in [syncOnce]. *)
Definition syncGroup (group : Group) : M unit :=
  let* got :=
    try_catch
      (let* inputs := readInputsForGroup group in ret (inr inputs))
      (fun err => ret (inl err)) in
  match got with
  | inl err =>
      let ctx := "Modbus communication error for " ++ key group ++ ": "
                 ++ messageOf err in
      withDebounce (fun d => (tt, resetDebounceForSites (sites group) d)) ;;
      setSitesDefault W (sites group) ctx
  | inr inputs => forEach (sites group) (syncSite W group inputs)
  end.

Definition syncOnce (groups : list Group) : M unit :=
  initialLogin W ;;
  forEach groups syncGroup.

End WithWorld.

End Throwing.

(** ** Histories of the debouncer *)

(** The two operations the sync cycle performs on [debounceStates]. *)
Inductive DebounceOp : Type :=
| OpUpdate (site : Site) (rawVal : bool) (now : Z)
| OpReset (ss : list Site).

Definition applyOp (m : gmap string DebounceState) (op : DebounceOp)
  : gmap string DebounceState :=
  match op with
  | OpUpdate site rawVal now => snd (updateDebouncedState site rawVal now m)
  | OpReset ss => resetDebounceForSites ss m
  end.

(** The map after a history, starting from the empty map of process start. *)
Definition afterHistory (ops : list DebounceOp) : gmap string DebounceState :=
  fold_left applyOp ops ∅.

(** Site identifiers are unique in a validated configuration: an update in
    the history that carries the identifier of [site] carries its default. *)
Definition agreesWith (site : Site) (op : DebounceOp) : Prop :=
  match op with
  | OpUpdate s _ _ => siteId s = siteId site -> sdefault s = sdefault site
  | OpReset _ => True
  end.

(** Successive updates of one site: the values returned, and the final map. *)
Fixpoint feed (site : Site) (samples : list (bool * Z)) (m : gmap string DebounceState)
  : list bool * gmap string DebounceState :=
  match samples with
  | [] => ([], m)
  | (rawVal, now) :: rest =>
      let '(e, m1) := updateDebouncedState site rawVal now m in
      let '(es, m2) := feed site rest m1 in
      (e :: es, m2)
  end.

(** The value stored for a site is the opposite of its default only with a
    start of the opposite run on record. *)
Definition oppositeHasStart (site : Site) (m : gmap string DebounceState) : Prop :=
  forall st, m !! siteId site = Some st ->
             effectiveVal st = negb (defaultToBool (sdefault site)) ->
             lastOppositeStartTs st <> None.

(** ** Bounds of a group *)

(** [z] is the least, respectively the greatest, offset among [ss]. *)
Definition minOf (z : Z) (ss : list Site) : Prop :=
  (forall s, In s ss -> z <= offset s) /\ (exists s, In s ss /\ offset s = z).

Definition maxOf (z : Z) (ss : list Site) : Prop :=
  (forall s, In s ss -> offset s <= z) /\ (exists s, In s ss /\ offset s = z).

(** The sites of a configuration that connect under key [k], in order. *)
Definition sitesOn (k : string) (cfg : list Site) : list Site :=
  List.filter (fun s => String.eqb (connKey s) k) cfg.

(** What holds of a group object while the sites [seen] have been added. *)
Definition accOk (seen : list Site) (k : string) (g : GroupAcc) : Prop :=
  a_key g = k /\ a_sites g = sitesOn k seen /\ a_sites g <> [] /\
  minOf (a_minOffset g) (a_sites g) /\ maxOf (a_maxOffset g) (a_sites g).

Definition mapOk (seen : list Site) (m : list (string * GroupAcc)) : Prop :=
  List.NoDup (map fst m) /\
  (forall s, In s seen -> In (connKey s) (map fst m)) /\
  (forall k g, In (k, g) m -> accOk seen k g).

(** ** What a stretch of the trace published to RDS *)

(** The work-site writes among some events: site and state, in order. *)
Fixpoint published (evs : list Event) : list (string * bool) :=
  match evs with
  | [] => []
  | EvInvoke (MSetWorkSiteFilled n) :: rest => (n, true) :: published rest
  | EvInvoke (MSetWorkSiteEmpty n) :: rest => (n, false) :: published rest
  | _ :: rest => published rest
  end.

(** From [s] to [s'] only the RDS client ran: the Modbus and debounce
    states are the same, and the trace grew by events that publish [pub]. *)
Definition rdsOnly (pub : list (string * bool)) (s s' : St) : Prop :=
  modbusStates s' = modbusStates s /\
  debounceStates s' = debounceStates s /\
  exists evs, trace s' = (trace s ++ evs)%list /\ published evs = pub.

(** A computation of the RDS client that publishes nothing. *)
Definition quiet {A} (m : M A) : Prop := forall s, rdsOnly [] s (snd (m s)).

(** The write of a site's configured default. *)
Definition defaultWrite (site : Site) : string * bool :=
  (siteId site, defaultToBool (sdefault site)).

(** ** Sample worlds and states for the worked examples *)

(** Stand-ins for the two library functions: the decoder rejects the empty
    text, as [JSON.parse] does, and knows two documents. *)
Definition sampleParse (text : string) : option Json :=
  if String.eqb text "{}" then Some (JObject [] [])
  else if String.eqb text "null" then Some JNull
  else None.

Definition sampleMd5 (pw : string) : string := "md5:" ++ pw.

Definition sampleWorld (now : nat -> Z) (connects : nat -> option string)
    (reads : nat -> ReadReply) (fetches : nat -> FetchReply) : World :=
  mkWorld sampleMd5 sampleParse now connects reads (fun _ => false) fetches.

(** The state of a process with the given Modbus states, session and
    language, before any interaction. *)
Definition sampleSt (ms : gmap string ModbusState) (sid : option string)
    (lang : string) : St :=
  mkSt ms ∅ (mkAPIClient RDS_HOST RDS_USER RDS_PASS sid lang) 0 [].

(** The group of the configured site and one with a second site. *)
Definition pickGroup : Group :=
  mkGroup "10.6.44.70:502:255" "10.6.44.70" 502 255
          [mkSite "PICK-01" "10.6.44.70" 502 255 9 EMPTY] 9 1.

Definition pickDropGroup : Group :=
  mkGroup "10.6.44.70:502:255" "10.6.44.70" 502 255
          [mkSite "PICK-01" "10.6.44.70" 502 255 9 EMPTY;
           mkSite "DROP-01" "10.6.44.70" 502 255 11 FILLED] 9 3.

(** An RDS whose session has expired and expires again at once: the first
    request is answered 401, the login succeeds, the resent request is
    answered 401 again. *)
Definition expiringWorld : World :=
  sampleWorld (fun _ => 0) (fun _ => None) (fun _ => ReadMalformed)
    (fun n => match n with
              | 1%nat => FetchResolves
                           (mkResponse 200 (Some "JSESSIONID=NEW; Path=/; HttpOnly") "{}")
              | _ => FetchResolves (mkResponse 401 None "")
              end).

(** An RDS reached by a client that has no session yet: the login
    succeeds, the request is answered 401, the second login succeeds, the
    resent request is answered 401 again. *)
Definition coldStartWorld : World :=
  sampleWorld (fun _ => 0) (fun _ => None) (fun _ => ReadMalformed)
    (fun n => match n with
              | 0%nat => FetchResolves
                           (mkResponse 200 (Some "JSESSIONID=FIRST; Path=/; HttpOnly") "{}")
              | 2%nat => FetchResolves
                           (mkResponse 200 (Some "JSESSIONID=NEW; Path=/; HttpOnly") "{}")
              | _ => FetchResolves (mkResponse 401 None "")
              end).

(** An RDS that answers every request with the given status, cookie and body. *)
Definition steadyWorld (st : Z) (cookie : option string) (text : string) : World :=
  sampleWorld (fun _ => 0) (fun _ => None) (fun _ => ReadMalformed)
    (fun _ => FetchResolves (mkResponse st cookie text)).

(** The options [setWorkSiteFilled] and [setWorkSiteEmpty] pass on. *)
Definition writeOptions (worksiteName : string) : Options :=
  mkOptions "POST" None (Some (WorkSiteIds [worksiteName])).

(** The scenario "DROP default filled under outage": the connect of the
    first tick is refused; the clock reads 1000000, 1000500 and 1005000 ms
    at the starts of the three ticks. *)
Definition dropSites : list Site :=
  [mkSite "DROP-01" "10.6.44.70" 502 255 11 FILLED].

Definition outageWorld : World :=
  sampleWorld
    (fun n => match n with
              | 0%nat => 1000000
              | 3%nat => 1000500
              | _ => 1005000
              end)
    (fun n => match n with
              | 1%nat => Some "ECONNREFUSED"
              | _ => None
              end)
    (fun _ => ReadData [false])
    (fun _ => FetchResolves (mkResponse 200 None "{}")).

(** The scenario "misconfigured offset": offsets 9 and 12 in one group, and
    a PLC that answers with two bits. *)
Definition spreadSites : list Site :=
  [mkSite "PICK-01" "10.6.44.70" 502 255 9 EMPTY;
   mkSite "PICK-04" "10.6.44.70" 502 255 12 EMPTY].

Definition shortAnswerWorld : World :=
  sampleWorld (fun _ => 1000000) (fun _ => None) (fun _ => ReadData [true; false])
    (fun _ => FetchResolves (mkResponse 200 None "{}")).

Definition isConnect (ev : Event) : bool :=
  match ev with EvConnectTCP _ _ => true | _ => false end.

Definition errorsOf (evs : list Event) : list LogLine :=
  flat_map (fun ev => match ev with EvConsoleError l => [l] | _ => [] end) evs.

(** ** Startup validation ([validateConfig]) *)

(** A field of an entry of [SITES] as JavaScript sees it.  A number is an
    integer or anything else a number can be (a fraction, [NaN], an
    infinity): [Number.isInteger] is all the validator asks of it. *)
Inductive JsValue : Type :=
| JsUndefined
| JsNull
| JsBoolean (b : bool)
| JsInteger (z : Z)
| JsOtherNumber
| JsString (s : string)
| JsObject.

(** An entry of [SITES] before validation. *)
Record RawSite : Type := mkRawSite {
  r_siteId : JsValue;
  r_ip : JsValue;
  r_port : JsValue;
  r_slaveId : JsValue;
  r_offset : JsValue;
  r_default : JsValue
}.

(** The four errors [validateConfig] throws. *)
Inductive ConfigError : Type :=
| InvalidSiteId (s : RawSite)
| DuplicateSiteId (siteId : string)
| InvalidOffset (siteId : string) (offset : JsValue)
| InvalidDefault (siteId : string) (def : JsValue).

(** [!s.siteId || typeof s.siteId !== "string"] fails: a non-empty string. *)
Definition validSiteId (v : JsValue) : option string :=
  match v with
  | JsString id => if String.eqb id "" then None else Some id
  | _ => None
  end.

(** [!Number.isInteger(s.offset) || s.offset < 0] fails. *)
Definition validOffset (v : JsValue) : bool :=
  match v with
  | JsInteger z => negb (z <? 0)
  | _ => false
  end.

(** [[EMPTY, FILLED].includes(s.default)]. *)
Definition validDefault (v : JsValue) : bool :=
  match v with
  | JsString d => String.eqb d "EMPTY" || String.eqb d "FILLED"
  | _ => false
  end.

(** The loop of [validateConfig], with the set [siteIds] built so far:
    [None] when it runs to the end, the error thrown otherwise. *)
Fixpoint validateFrom (siteIds : gset string) (ss : list RawSite) : option ConfigError :=
  match ss with
  | [] => None
  | s :: rest =>
      match validSiteId (r_siteId s) with
      | None => Some (InvalidSiteId s)
      | Some id =>
          if decide (id ∈ siteIds) then Some (DuplicateSiteId id)
          else if negb (validOffset (r_offset s)) then Some (InvalidOffset id (r_offset s))
          else if negb (validDefault (r_default s)) then Some (InvalidDefault id (r_default s))
          else validateFrom ({[ id ]} ∪ siteIds) rest
      end
  end.

Definition validateConfig (SITES : list RawSite) : option ConfigError :=
  validateFrom ∅ SITES.

(** An entry every check of the validator accepts on its own. *)
Definition wellFormed (s : RawSite) : Prop :=
  (exists id, r_siteId s = JsString id /\ id <> "") /\
  (exists z, r_offset s = JsInteger z /\ 0 <= z) /\
  (r_default s = JsString "EMPTY" \/ r_default s = JsString "FILLED").

(** ** Counting the traffic of a stretch of the trace *)

Definition isFetch (ev : Event) : bool :=
  match ev with EvFetch _ _ => true | _ => false end.

Definition isLogin (ev : Event) : bool :=
  match ev with EvInvoke MLogin => true | _ => false end.

Definition fetches (evs : list Event) : nat := length (List.filter isFetch evs).
Definition logins (evs : list Event) : nat := length (List.filter isLogin evs).
Definition connects (evs : list Event) : nat := length (List.filter isConnect evs).

(** The state [s0] in which a call of [apiCall] made in [s] sends its
    request for the first time: [s] itself when the client has a session,
    and otherwise the state in which the [login] that the call starts with
    returns. *)
Definition sendsFrom (W : World) (s s0 : St) : Prop :=
  (hasSession (sessionId (api s)) = true /\ s0 = s) \/
  (hasSession (sessionId (api s)) = false /\ login W s = (Ret tt, s0)).

(** The events a computation added to the trace of [s]. *)
Definition added (s s' : St) : list Event := drop (length (trace s)) (trace s').

(** A sample that disagrees with the default of [site]. *)
Definition disagrees (site : Site) (sample : bool * Z) : Prop :=
  fst sample = negb (defaultToBool (sdefault site)).

(** A sample taken at least [FILL_DEBOUNCE_MS] after [since]. *)
Definition lateEnough (since : Z) (sample : bool * Z) : Prop :=
  FILL_DEBOUNCE_MS <= snd sample - since.

(** What the state [st] of [site] records about the samples [p] fed so
    far: a start on record is the time of a disagreeing sample of [p] after
    which every sample disagreed, and a stored opposite value has a sample
    of that run late enough behind it. *)
Definition runInv (site : Site) (p : list (bool * Z)) (st : DebounceState) : Prop :=
  match lastOppositeStartTs st with
  | None => effectiveVal st = defaultToBool (sdefault site)
  | Some since =>
      exists pre rest,
        p = (pre ++ (negb (defaultToBool (sdefault site)), since) :: rest)%list /\
        Forall (disagrees site) rest /\
        (effectiveVal st = negb (defaultToBool (sdefault site)) ->
         Exists (lateEnough since) rest)
  end.

(** * Properties *)

(** ** The debouncer *)


Lemma update_other_site site rawVal now m k :
  k <> siteId site -> snd (updateDebouncedState site rawVal now m) !! k = m !! k.
Proof.
  intros Hk. unfold updateDebouncedState. simpl.
  rewrite lookup_insert_ne; [reflexivity | congruence].
Qed.


(** The scenario "PICK transition to filled": samples every 500 ms. *)
Example pick_transition_to_filled :
  fst (feed (mkSite "PICK-01" "10.6.44.70" 502 255 9 EMPTY)
         [(false, 0); (true, 500); (true, 1000); (true, 1500); (true, 2000);
          (true, 2500); (true, 3000)] ∅)
  = [false; false; false; false; false; true; true].
Proof. vm_compute. reflexivity. Qed.

(** The scenario "PICK glitch": the start is cleared by the agreeing sample. *)
Example pick_glitch :
  fst (feed (mkSite "PICK-01" "10.6.44.70" 502 255 9 EMPTY)
         [(false, 0); (true, 500); (false, 1000); (true, 1500); (true, 2000)] ∅)
  = [false; false; false; false; false].
Proof. vm_compute. reflexivity. Qed.

Lemma reset_lookup_other ss : forall m k,
  ~ In k (map siteId ss) -> resetDebounceForSites ss m !! k = m !! k.
Proof.
  unfold resetDebounceForSites.
  induction ss as [|s ss IH]; intros m k Hk; [reflexivity |].
  cbn [fold_left]. rewrite IH by (intros H; apply Hk; now right).
  apply lookup_delete_ne. intros E. apply Hk. now left.
Qed.

Lemma reset_lookup_member ss : forall m k,
  In k (map siteId ss) -> resetDebounceForSites ss m !! k = None.
Proof.
  unfold resetDebounceForSites.
  induction ss as [|s ss IH]; intros m k Hk; [destruct Hk |].
  cbn [fold_left]. destruct (in_dec string_dec k (map siteId ss)) as [Hin|Hnin].
  - now apply IH.
  - fold (resetDebounceForSites ss (delete (siteId s) m)).
    rewrite reset_lookup_other by assumption.
    destruct Hk as [<-|Hk]; [apply lookup_delete_eq | contradiction].
Qed.

Lemma oppositeHasStart_empty site : oppositeHasStart site ∅.
Proof. intros st H. rewrite lookup_empty in H. discriminate. Qed.

Lemma oppositeHasStart_step site m op :
  agreesWith site op -> oppositeHasStart site m -> oppositeHasStart site (applyOp m op).
Proof.
  intros Hag Hinv. destruct op as [s rawVal now | ss]; cbn [applyOp agreesWith] in *.
  - destruct (decide (siteId s = siteId site)) as [Heq|Hne].
    + specialize (Hag Heq). intros st Hst Heff.
      unfold updateDebouncedState in Hst. simpl in Hst.
      rewrite Heq, lookup_insert_eq in Hst. injection Hst as <-.
      rewrite Hag in *.
      destruct (Bool.eqb rawVal (defaultToBool (sdefault site))).
      * simpl in Heff. destruct (defaultToBool (sdefault site)); discriminate.
      * destruct (lastOppositeStartTs (stateOf s m)) as [t|] eqn:Hts.
        -- destruct (FILL_DEBOUNCE_MS <=? now - t); simpl; [discriminate |].
           rewrite Hts. discriminate.
        -- simpl in Heff. destruct (defaultToBool (sdefault site)); discriminate.
    + intros st Hst. rewrite update_other_site in Hst by congruence.
      now apply Hinv.
  - intros st Hst.
    destruct (in_dec string_dec (siteId site) (map siteId ss)) as [Hin|Hnin].
    + rewrite reset_lookup_member in Hst by assumption. discriminate.
    + rewrite reset_lookup_other in Hst by assumption. now apply Hinv.
Qed.

Lemma oppositeHasStart_history site ops :
  Forall (agreesWith site) ops -> oppositeHasStart site (afterHistory ops).
Proof.
  unfold afterHistory. generalize (oppositeHasStart_empty site).
  generalize (∅ : gmap string DebounceState) as m.
  induction ops as [|op ops IH]; intros m Hm Hall; simpl; [assumption |].
  inversion Hall; subst. apply IH; [| assumption].
  now apply oppositeHasStart_step.
Qed.

(** A differing sample on a stored opposite value with its start on record
    returns the opposite and keeps both. *)
Lemma update_keeps_opposite site now m st since :
  m !! siteId site = Some st ->
  effectiveVal st = negb (defaultToBool (sdefault site)) ->
  lastOppositeStartTs st = Some since ->
  updateDebouncedState site (negb (defaultToBool (sdefault site))) now m
  = (negb (defaultToBool (sdefault site)),
     <[siteId site := mkDebounce (Some since) (negb (defaultToBool (sdefault site)))]> m).
Proof.
  intros Hst Heff Hts. unfold updateDebouncedState, stateOf. rewrite Hst, Hts.
  assert (Bool.eqb (negb (defaultToBool (sdefault site))) (defaultToBool (sdefault site))
          = false) as -> by (destruct (defaultToBool (sdefault site)); reflexivity).
  destruct (FILL_DEBOUNCE_MS <=? now - since); simpl; [reflexivity |].
  rewrite Heff. destruct st as [ts e]; simpl in *. subst. reflexivity.
Qed.

Lemma feed_keeps_opposite site nows : forall m st since,
  m !! siteId site = Some st ->
  effectiveVal st = negb (defaultToBool (sdefault site)) ->
  lastOppositeStartTs st = Some since ->
  Forall (fun e => e = negb (defaultToBool (sdefault site)))
         (fst (feed site (map (fun now => (negb (defaultToBool (sdefault site)), now)) nows) m)).
Proof.
  induction nows as [|now nows IH]; intros m st since Hst Heff Hts; cbn [feed map].
  - constructor.
  - rewrite (update_keeps_opposite site now m st since Hst Heff Hts).
    match goal with |- context [feed ?a ?b ?c] =>
      specialize (IH c (mkDebounce (Some since) (negb (defaultToBool (sdefault site)))) since);
      destruct (feed a b c) as [es m2] eqn:Hfeed
    end.
    cbn [fst]. constructor; [reflexivity |].
    cbn [fst] in IH. apply IH; [apply lookup_insert_eq | reflexivity | reflexivity].
Qed.

(** C10: after any history of updates and resets since process start (in
    which the site's identifier always comes with the site's default), if
    the value stored for the site is the opposite of its default, then
    every further update of the site with a sample that still differs from
    the default returns the opposite, whatever timestamps are passed. *)
Theorem opposite_is_kept_while_raw_disagrees
    (site : Site) (ops : list DebounceOp) (st : DebounceState) (nows : list Z) :
  Forall (agreesWith site) ops ->
  afterHistory ops !! siteId site = Some st ->
  effectiveVal st = negb (defaultToBool (sdefault site)) ->
  Forall (fun e => e = negb (defaultToBool (sdefault site)))
         (fst (feed site
                 (map (fun now => (negb (defaultToBool (sdefault site)), now)) nows)
                 (afterHistory ops))).
Proof.
  intros Hall Hst Heff.
  pose proof (oppositeHasStart_history site ops Hall st Hst Heff) as Hts.
  destruct (lastOppositeStartTs st) as [since|] eqn:E; [| congruence].
  now apply (feed_keeps_opposite site nows _ st since).
Qed.

Lemma opposite_is_kept_witness :
  let site := mkSite "PICK-01" "10.6.44.70" 502 255 9 EMPTY in
  let ops := [OpUpdate site true 500; OpUpdate site true 2500] in
  Forall (fun e => e = true)
         (fst (feed site (map (fun now => (true, now)) [3000; 100; 2499])
                 (afterHistory ops))).
Proof.
  intros site ops.
  apply (opposite_is_kept_while_raw_disagrees site ops
           (mkDebounce (Some 500) true) [3000; 100; 2499]).
  - repeat constructor; simpl; intros; reflexivity.
  - vm_compute. reflexivity.
  - reflexivity.
Defined.

(** ** Grouping *)

Lemma map_get_None k m : map_get k m = None <-> ~ In k (map fst m).
Proof.
  induction m as [|[k' g'] m IH]; simpl; [tauto |].
  destruct (String.eqb_spec k k') as [->|Hne].
  - split; [discriminate | intros H; exfalso; apply H; now left].
  - rewrite IH. split; intros H; [intros [E|Hin]; [congruence | tauto] | tauto].
Qed.

Lemma map_get_Some k g m : map_get k m = Some g -> In (k, g) m.
Proof.
  induction m as [|[k' g'] m IH]; simpl; [discriminate |].
  destruct (String.eqb_spec k k') as [->|Hne].
  - intros [= ->]. now left.
  - intros H. right. now apply IH.
Qed.

Lemma map_mutate_keys k g m : map fst (map_mutate k g m) = map fst m.
Proof.
  induction m as [|[k' g'] m IH]; simpl; [reflexivity |].
  destruct (String.eqb k k'); simpl; [reflexivity | now rewrite IH].
Qed.

Lemma In_map_mutate k g m k' g' :
  List.NoDup (map fst m) -> In (k', g') (map_mutate k g m) ->
  (k' = k /\ g' = g) \/ (k' <> k /\ In (k', g') m).
Proof.
  induction m as [|[k1 g1] m IH]; simpl; [tauto |].
  intros Hnd. inversion Hnd as [|? ? Hnotin Hnd']; subst.
  destruct (String.eqb_spec k k1) as [->|Hne]; simpl.
  - intros [[= <- <-]|Hin]; [now left |].
    right. split; [| now right].
    intros ->. apply Hnotin. change k1 with (fst (k1, g')). now apply in_map.
  - intros [[= <- <-]|Hin].
    + right. split; [congruence | now left].
    + destruct (IH Hnd' Hin) as [?|[? ?]]; [now left | right; split; [assumption | now right]].
Qed.

Lemma sitesOn_app k xs ys : sitesOn k (xs ++ ys) = (sitesOn k xs ++ sitesOn k ys)%list.
Proof. unfold sitesOn. apply List.filter_app. Qed.

Lemma sitesOn_one_same s : sitesOn (connKey s) [s] = [s].
Proof. unfold sitesOn. simpl. now rewrite String.eqb_refl. Qed.

Lemma sitesOn_one_other k s : connKey s <> k -> sitesOn k [s] = [].
Proof.
  intros Hne. unfold sitesOn. simpl.
  destruct (String.eqb_spec (connKey s) k); [contradiction | reflexivity].
Qed.

Lemma sitesOn_absent k seen :
  (forall s, In s seen -> connKey s <> k) -> sitesOn k seen = [].
Proof.
  induction seen as [|s seen IH]; intros H; [reflexivity |].
  unfold sitesOn in *. simpl.
  destruct (String.eqb_spec (connKey s) k) as [E|_].
  - exfalso. apply (H s); [now left | assumption].
  - apply IH. intros s' Hin. apply H. now right.
Qed.

Lemma pushSite_fields g s :
  a_key (pushSite g s) = a_key g /\
  a_sites (pushSite g s) = (a_sites g ++ [s])%list /\
  a_minOffset (pushSite g s) = Z.min (a_minOffset g) (offset s) /\
  a_maxOffset (pushSite g s) = Z.max (a_maxOffset g) (offset s).
Proof.
  unfold pushSite. cbn [a_sites a_minOffset a_maxOffset a_key].
  destruct (Z.ltb_spec (offset s) (a_minOffset g));
    cbn [a_sites a_minOffset a_maxOffset a_key];
    destruct (Z.ltb_spec (a_maxOffset g) (offset s));
    cbn [a_sites a_minOffset a_maxOffset a_key];
    repeat split; lia.
Qed.

Lemma minOf_single s : minOf (offset s) [s].
Proof.
  split; [intros s' [<-|[]]; lia | exists s; split; [now left | reflexivity]].
Qed.

Lemma maxOf_single s : maxOf (offset s) [s].
Proof.
  split; [intros s' [<-|[]]; lia | exists s; split; [now left | reflexivity]].
Qed.

Lemma minOf_snoc z ss s : minOf z ss -> minOf (Z.min z (offset s)) (ss ++ [s]).
Proof.
  intros [Hlo (x & Hx & Hxe)]. split.
  - intros s' Hin. apply in_app_or in Hin. destruct Hin as [Hin|[<-|[]]];
      [specialize (Hlo _ Hin) |]; lia.
  - destruct (Z.le_gt_cases z (offset s)).
    + exists x. split; [apply in_or_app; now left | lia].
    + exists s. split; [apply in_or_app; right; now left | lia].
Qed.

Lemma maxOf_snoc z ss s : maxOf z ss -> maxOf (Z.max z (offset s)) (ss ++ [s]).
Proof.
  intros [Hhi (x & Hx & Hxe)]. split.
  - intros s' Hin. apply in_app_or in Hin. destruct Hin as [Hin|[<-|[]]];
      [specialize (Hhi _ Hin) |]; lia.
  - destruct (Z.le_gt_cases (offset s) z).
    + exists x. split; [apply in_or_app; now left | lia].
    + exists s. split; [apply in_or_app; right; now left | lia].
Qed.

(** [pushSite] keeps the bounds exact, whether the group object is fresh
    (no site yet, both bounds at the offset of the first site) or not. *)
Lemma pushSite_bounds g s :
  (a_sites g = [] /\ a_minOffset g = offset s /\ a_maxOffset g = offset s) \/
  (minOf (a_minOffset g) (a_sites g) /\ maxOf (a_maxOffset g) (a_sites g)) ->
  a_key (pushSite g s) = a_key g /\
  a_sites (pushSite g s) = (a_sites g ++ [s])%list /\
  minOf (a_minOffset (pushSite g s)) (a_sites g ++ [s]) /\
  maxOf (a_maxOffset (pushSite g s)) (a_sites g ++ [s]).
Proof.
  intros H. destruct (pushSite_fields g s) as (Fk & Fs & Fmin & Fmax).
  rewrite Fmin, Fmax. repeat split; try assumption;
    destruct H as [(Hnil & Hmin & Hmax) | (Hmin & Hmax)].
  - rewrite Hnil, Hmin, Z.min_id. apply minOf_single.
  - apply (minOf_snoc _ _ _ Hmin).
  - rewrite Hnil, Hmin, Z.min_id. apply minOf_single.
  - apply (minOf_snoc _ _ _ Hmin).
  - rewrite Hnil, Hmax, Z.max_id. apply maxOf_single.
  - apply (maxOf_snoc _ _ _ Hmax).
  - rewrite Hnil, Hmax, Z.max_id. apply maxOf_single.
  - apply (maxOf_snoc _ _ _ Hmax).
Qed.

Lemma addSite_ok seen m s : mapOk seen m -> mapOk (seen ++ [s]) (addSite m s).
Proof.
  intros (Hnd & Hcov & Hacc). unfold addSite.
  destruct (map_get (connKey s) m) as [g|] eqn:Hget.
  - apply map_get_Some in Hget.
    destruct (Hacc _ _ Hget) as (Hk & Hs & Hne & Hmin & Hmax).
    destruct (pushSite_bounds g s (or_intror (conj Hmin Hmax)))
      as (Pk & Ps & Pmin & Pmax).
    repeat split.
    + now rewrite map_mutate_keys.
    + intros s' Hin. rewrite map_mutate_keys.
      apply in_app_or in Hin. destruct Hin as [Hin|[<-|[]]]; [now apply Hcov |].
      change (connKey s) with (fst (connKey s, g)). now apply in_map.
    + destruct (In_map_mutate _ _ _ _ _ Hnd H) as [[-> ->]|[Hne' Hin]];
        [congruence | apply (Hacc _ _ Hin)].
    + destruct (In_map_mutate _ _ _ _ _ Hnd H) as [[-> ->]|[Hne' Hin]].
      * rewrite Ps, Hs, sitesOn_app, sitesOn_one_same. reflexivity.
      * destruct (Hacc _ _ Hin) as (_ & Hs' & _).
        rewrite Hs', sitesOn_app, sitesOn_one_other by congruence.
        now rewrite app_nil_r.
    + destruct (In_map_mutate _ _ _ _ _ Hnd H) as [[-> ->]|[Hne' Hin]].
      * rewrite Ps. intros E. now apply app_eq_nil in E as [_ [=]].
      * apply (Hacc _ _ Hin).
    + destruct (In_map_mutate _ _ _ _ _ Hnd H) as [[-> ->]|[Hne' Hin]].
      * rewrite Ps. apply Pmin.
      * apply (Hacc _ _ Hin).
    + destruct (In_map_mutate _ _ _ _ _ Hnd H) as [[-> ->]|[Hne' Hin]].
      * rewrite Ps. apply Pmin.
      * apply (Hacc _ _ Hin).
    + destruct (In_map_mutate _ _ _ _ _ Hnd H) as [[-> ->]|[Hne' Hin]].
      * rewrite Ps. apply Pmax.
      * apply (Hacc _ _ Hin).
    + destruct (In_map_mutate _ _ _ _ _ Hnd H) as [[-> ->]|[Hne' Hin]].
      * rewrite Ps. apply Pmax.
      * apply (Hacc _ _ Hin).
  - apply map_get_None in Hget.
    set (g0 := mkAcc (connKey s) (ip s) (port s) (slaveId s) [] (offset s) (offset s)).
    destruct (pushSite_bounds g0 s (or_introl (conj eq_refl (conj eq_refl eq_refl))))
      as (Pk & Ps & Pmin & Pmax).
    assert (Hfresh : sitesOn (connKey s) seen = []).
    { apply sitesOn_absent. intros s' Hin E. apply Hget. rewrite <- E. now apply Hcov. }
    assert (Hnew : accOk (seen ++ [s]) (connKey s) (pushSite g0 s)).
    { unfold accOk. rewrite Ps. cbn [a_sites g0 app].
      rewrite sitesOn_app, Hfresh, sitesOn_one_same. cbn [app].
      repeat split; try apply Pmin; try apply Pmax; try discriminate.
      rewrite Pk. reflexivity. }
    split; [| split].
    + rewrite map_app. simpl. apply List.NoDup_app.
      * assumption.
      * constructor; [intros [] | constructor].
      * intros x Hx [<-|[]]. contradiction.
    + intros s' Hin. rewrite map_app. apply in_or_app.
      apply in_app_or in Hin. destruct Hin as [Hin|[<-|[]]];
        [left; now apply Hcov | right; now left].
    + intros k g Hin. apply in_app_or in Hin. destruct Hin as [Hin|[[= <- <-]|[]]];
        [| exact Hnew].
      destruct (Hacc _ _ Hin) as (Hk & Hs & Hne & Hmin & Hmax).
      assert (connKey s <> k).
      { intros <-. apply Hget. change (connKey s) with (fst (connKey s, g)).
        now apply in_map. }
      unfold accOk. rewrite Hs, sitesOn_app, sitesOn_one_other, app_nil_r by assumption.
      rewrite <- Hs. repeat split; try assumption; try apply Hmin; try apply Hmax.
Qed.

Lemma fold_addSite_ok rest : forall seen m,
  mapOk seen m -> mapOk (seen ++ rest) (fold_left addSite rest m).
Proof.
  induction rest as [|s rest IH]; intros seen m H; simpl.
  - now rewrite app_nil_r.
  - replace (seen ++ s :: rest)%list with ((seen ++ [s]) ++ rest)%list
      by (now rewrite <- app_assoc).
    apply IH. now apply addSite_ok.
Qed.

Lemma groups_ok cfg : mapOk cfg (fold_left addSite cfg []).
Proof.
  apply (fold_addSite_ok cfg [] []).
  split; [constructor | split; [intros s [] | intros k g []]].
Qed.

(** C9: every group built from a configuration holds exactly the sites of
    its connection, in order, and is not empty; the read starts at the
    least member offset; its quantity is 1 when the group has exactly one
    site, whatever that site's offset, and otherwise the greatest member
    offset minus the least plus one. *)
Theorem group_read_request (cfg : list Site) (g : Group) :
  In g (groupSitesByConnection cfg) ->
  sites g = sitesOn (key g) cfg /\ sites g <> [] /\
  startAddr g = minOffset g /\ minOf (minOffset g) (sites g) /\
  (length (sites g) = 1%nat -> readLength g = 1) /\
  ((1 < length (sites g))%nat ->
   exists maxOffset, maxOf maxOffset (sites g) /\
                     readLength g = maxOffset - minOffset g + 1).
Proof.
  intros Hin. unfold groupSitesByConnection in Hin.
  apply in_map_iff in Hin. destruct Hin as (ga & <- & Hin).
  apply in_map_iff in Hin. destruct Hin as ([k ga'] & Hsnd & Hin).
  simpl in Hsnd. subst ga'.
  destruct (groups_ok cfg) as (_ & _ & Hacc).
  destruct (Hacc _ _ Hin) as (Hk & Hs & Hne & Hmin & Hmax).
  unfold startAddr, readLength, finishGroup. cbn [sites key minOffset g_length].
  rewrite Hk. repeat split; try assumption; try apply Hmin.
  - intros ->. reflexivity.
  - intros Hlen. exists (a_maxOffset ga). split; [assumption |].
    destruct (Nat.eqb_spec (length (a_sites ga)) 1); [lia | reflexivity].
Qed.

Lemma group_read_request_witness :
  let far := mkSite "PICK-07" "10.6.44.70" 502 255 4000 EMPTY in
  let cfg := [ mkSite "PICK-01" "10.6.44.70" 502 255 9 EMPTY;
               far;
               mkSite "DROP-01" "10.6.44.70" 502 255 12 FILLED ] in
  let g := mkGroup "10.6.44.70:502:255" "10.6.44.70" 502 255 cfg 9 3992 in
  sites g = sitesOn (key g) cfg /\ sites g <> [] /\
  startAddr g = minOffset g /\ minOf (minOffset g) (sites g) /\
  (length (sites g) = 1%nat -> readLength g = 1) /\
  ((1 < length (sites g))%nat ->
   exists maxOffset, maxOf maxOffset (sites g) /\
                     readLength g = maxOffset - minOffset g + 1).
Proof.
  intros far cfg g. apply (group_read_request cfg g).
  vm_compute. left. reflexivity.
Defined.

(** A group of one site with a large offset asks for one input. *)
Example single_site_reads_one :
  map (fun g => (startAddr g, readLength g))
      (groupSitesByConnection [mkSite "PICK-07" "10.6.44.70" 502 255 4000 EMPTY])
  = [(4000, 1)].
Proof. vm_compute. reflexivity. Qed.

(** ** The Modbus group engine *)

(** Unfolding of the monad and of the state accessors. *)
Ltac unfold_monad :=
  unfold bind, ret, throw, try_catch, emit, ask, getApi, setSessionId,
    getModbusState, setModbusState, withDebounce in *.

Lemma tagged_backoff_window W group s ms :
  modbusStates s !! key group = Some ms ->
  client ms = None ->
  lastAttemptMs ms <> 0 ->
  now_at W (tick s) - lastAttemptMs ms < RECONNECT_BACKOFF_MS ->
  Tagged.readInputsForGroup W group s
  = (Ret Tagged.StatusBackoff,
     mkSt (modbusStates s) (debounceStates s) (api s) (S (tick s)) (trace s)).
Proof.
  intros Hms Hc Hrec Hwin.
  unfold Tagged.readInputsForGroup, Tagged.ensureClient. unfold_monad.
  rewrite Hms. cbn [tick modbusStates]. rewrite Hc.
  destruct (Z.eqb_spec (lastAttemptMs ms) 0) as [|_]; [contradiction |].
  destruct (Z.ltb_spec (now_at W (tick s) - lastAttemptMs ms) RECONNECT_BACKOFF_MS);
    [reflexivity | lia].
Qed.

Lemma throwing_backoff_window W group s ms :
  modbusStates s !! key group = Some ms ->
  client ms = None ->
  now_at W (tick s) - lastAttemptMs ms < RECONNECT_BACKOFF_MS ->
  Throwing.readInputsForGroup W group s
  = (Throw (Error ("Modbus " ++ key group ++ ": reconnect backoff ("
                   ++ pretty (now_at W (tick s) - lastAttemptMs ms) ++ "ms < "
                   ++ pretty RECONNECT_BACKOFF_MS ++ "ms)")),
     mkSt (modbusStates s) (debounceStates s) (api s) (S (tick s)) (trace s)).
Proof.
  intros Hms Hc Hwin.
  unfold Throwing.readInputsForGroup. unfold_monad.
  rewrite Hms. cbn [tick modbusStates]. rewrite Hc.
  destruct (Z.ltb_spec (now_at W (tick s) - lastAttemptMs ms) RECONNECT_BACKOFF_MS);
    [reflexivity | lia].
Qed.

(** C4: when the state of a group holds no client and its last connect
    attempt is on record less than [RECONNECT_BACKOFF_MS] before the time
    of the call, [readInputsForGroup] ends at once: in the copy that
    returns a status it returns [backoff], in the copy that throws it
    throws the backoff error; in both the trace is what it was, so no
    [connectTCP] (and no other I/O) was issued, and the stored state of the
    group is unchanged. *)
Theorem no_connect_during_backoff (W : World) (group : Group) (s : St) (ms : ModbusState) :
  modbusStates s !! key group = Some ms ->
  client ms = None ->
  lastAttemptMs ms <> 0 ->
  now_at W (tick s) - lastAttemptMs ms < RECONNECT_BACKOFF_MS ->
  (fst (Tagged.readInputsForGroup W group s) = Ret Tagged.StatusBackoff /\
   trace (snd (Tagged.readInputsForGroup W group s)) = trace s /\
   modbusStates (snd (Tagged.readInputsForGroup W group s)) = modbusStates s) /\
  ((exists e, fst (Throwing.readInputsForGroup W group s) = Throw e) /\
   trace (snd (Throwing.readInputsForGroup W group s)) = trace s /\
   modbusStates (snd (Throwing.readInputsForGroup W group s)) = modbusStates s).
Proof.
  intros Hms Hc Hrec Hwin. split.
  - rewrite (tagged_backoff_window W group s ms) by assumption. auto.
  - rewrite (throwing_backoff_window W group s ms) by assumption.
    split; [eexists; reflexivity | auto].
Qed.

Lemma no_connect_during_backoff_witness :
  let W := sampleWorld (fun _ => 1500) (fun _ => None) (fun _ => ReadData [true])
                       (fun _ => FetchRejects "down") in
  let s := sampleSt {[ key pickGroup := mkModbusState None 1000 ]} (Some "t") "en" in
  (fst (Tagged.readInputsForGroup W pickGroup s) = Ret Tagged.StatusBackoff /\
   trace (snd (Tagged.readInputsForGroup W pickGroup s)) = trace s /\
   modbusStates (snd (Tagged.readInputsForGroup W pickGroup s)) = modbusStates s) /\
  ((exists e, fst (Throwing.readInputsForGroup W pickGroup s) = Throw e) /\
   trace (snd (Throwing.readInputsForGroup W pickGroup s)) = trace s /\
   modbusStates (snd (Throwing.readInputsForGroup W pickGroup s)) = modbusStates s).
Proof.
  intros W s.
  apply (no_connect_during_backoff W pickGroup s (mkModbusState None 1000)).
  - reflexivity.
  - reflexivity.
  - discriminate.
  - reflexivity.
Defined.

Ltac step_state :=
  cbv beta iota zeta;
  cbn [tick modbusStates trace api debounceStates client lastAttemptMs fst snd].

(** The status [backoff] is returned on one path only, which leaves
    everything but the count of interactions as it was. *)
Lemma tagged_backoff_inv W group s s' :
  Tagged.readInputsForGroup W group s = (Ret Tagged.StatusBackoff, s') ->
  s' = mkSt (modbusStates s) (debounceStates s) (api s) (S (tick s)) (trace s).
Proof.
  unfold Tagged.readInputsForGroup, Tagged.ensureClient, connect, readDiscreteInputs,
    closeQuietly.
  unfold_monad.
  destruct (modbusStates s !! key group) as [ms|] eqn:Hms; step_state.
  - destruct (client ms) as [c|]; step_state.
    + destruct (read_at W (S (tick s))) as [msg| |data]; step_state; discriminate.
    + destruct (negb (lastAttemptMs ms =? 0)
                && (now_at W (tick s) - lastAttemptMs ms <? RECONNECT_BACKOFF_MS));
        step_state.
      * intros [= <-]. reflexivity.
      * destruct (connect_at W (S (tick s))) as [msg|]; step_state; [discriminate |].
        destruct (read_at W (S (S (tick s)))) as [msg| |data]; step_state; discriminate.
  - rewrite andb_false_l. step_state.
    destruct (connect_at W (S (tick s))) as [msg|]; step_state; [discriminate |].
    destruct (read_at W (S (S (tick s)))) as [msg| |data]; step_state; discriminate.
Qed.

(** C2: on a tick where the read of a group returns the status [backoff],
    the loop body for that group ends with the state the read left, in
    which the debounce states, the RDS client and the trace (which holds
    every RDS call, request and logged error) are those from before the
    read; so no debounce state is reset, no RDS write is issued and no
    error is logged. *)
Theorem backoff_tick_changes_nothing (W : World) (group : Group) (s s' : St) :
  Tagged.readInputsForGroup W group s = (Ret Tagged.StatusBackoff, s') ->
  Tagged.syncGroup W group s = (Ret tt, s') /\
  debounceStates s' = debounceStates s /\
  trace s' = trace s /\
  api s' = api s /\
  modbusStates s' = modbusStates s.
Proof.
  intros Hread. pose proof (tagged_backoff_inv W group s s' Hread) as ->.
  unfold Tagged.syncGroup, bind. rewrite Hread. auto.
Qed.

Lemma backoff_tick_changes_nothing_witness :
  let W := sampleWorld (fun _ => 1500) (fun _ => None) (fun _ => ReadData [true])
                       (fun _ => FetchRejects "down") in
  let s := sampleSt {[ key pickDropGroup := mkModbusState None 1000 ]} (Some "t") "en" in
  let s' := mkSt (modbusStates s) (debounceStates s) (api s) 1 (trace s) in
  Tagged.syncGroup W pickDropGroup s = (Ret tt, s') /\
  debounceStates s' = debounceStates s /\
  trace s' = trace s /\
  api s' = api s /\
  modbusStates s' = modbusStates s.
Proof.
  intros W s s'. apply (backoff_tick_changes_nothing W pickDropGroup s s').
  reflexivity.
Defined.

(** *** The RDS client touches neither Modbus nor debounce state *)

Lemma published_app xs ys : published (xs ++ ys) = (published xs ++ published ys)%list.
Proof.
  induction xs as [|e xs IH]; [reflexivity |].
  destruct e as [| | | |[]| |]; simpl; now rewrite IH.
Qed.

Lemma rdsOnly_refl s : rdsOnly [] s s.
Proof. repeat split. exists []. now rewrite app_nil_r. Qed.

Lemma rdsOnly_trans p q s1 s2 s3 :
  rdsOnly p s1 s2 -> rdsOnly q s2 s3 -> rdsOnly (p ++ q) s1 s3.
Proof.
  intros (Hm & Hd & evs & Ht & Hp) (Hm' & Hd' & evs' & Ht' & Hp').
  repeat split; [congruence | congruence |].
  exists (evs ++ evs')%list. rewrite Ht', Ht, published_app, Hp, Hp', app_assoc. auto.
Qed.

Lemma quiet_ret {A} (a : A) : quiet (ret a).
Proof. intros s. apply rdsOnly_refl. Qed.

Lemma quiet_throw {A} e : quiet (@throw A e).
Proof. intros s. apply rdsOnly_refl. Qed.

Lemma quiet_bind {A B} (m : M A) (k : A -> M B) :
  quiet m -> (forall a, quiet (k a)) -> quiet (bind m k).
Proof.
  intros Hm Hk s. unfold bind. specialize (Hm s).
  destruct (m s) as [[a|e] s1]; cbn [snd] in *; [| assumption].
  apply (rdsOnly_trans [] [] s s1); [assumption | apply Hk].
Qed.

Lemma quiet_try {A} (m : M A) (h : Exn -> M A) :
  quiet m -> (forall e, quiet (h e)) -> quiet (try_catch m h).
Proof.
  intros Hm Hh s. unfold try_catch. specialize (Hm s).
  destruct (m s) as [[a|e] s1]; cbn [snd] in *; [assumption |].
  apply (rdsOnly_trans [] [] s s1); [assumption | apply Hh].
Qed.

Lemma quiet_emit e : published [e] = [] -> quiet (emit e).
Proof.
  intros He s. repeat split. exists [e]. auto.
Qed.

Lemma quiet_ask {A} (f : nat -> A) : quiet (ask f).
Proof. intros s. repeat split. exists []. cbn. now rewrite app_nil_r. Qed.

Lemma quiet_getApi : quiet getApi.
Proof. intros s. apply rdsOnly_refl. Qed.

Lemma quiet_setSessionId sid : quiet (setSessionId sid).
Proof. intros s. repeat split. exists []. cbn. now rewrite app_nil_r. Qed.

Ltac quiet_step :=
  first
    [ apply quiet_bind; [| intros ?]
    | apply quiet_try; [| intros ?]
    | apply quiet_ret
    | apply quiet_throw
    | apply quiet_ask
    | apply quiet_getApi
    | apply quiet_setSessionId
    | apply quiet_emit; reflexivity
    | progress cbv zeta
    | match goal with
      | |- quiet (if ?b then _ else _) => destruct b
      | |- quiet (match ?x with _ => _ end) => destruct x
      end ].

Lemma quiet_fetch W url o : quiet (fetch W url o).
Proof. unfold fetch. repeat quiet_step. Qed.

Lemma quiet_response_json W r : quiet (response_json W r).
Proof. unfold response_json. repeat quiet_step. Qed.

Lemma quiet_login W : quiet (login W).
Proof.
  unfold login.
  repeat (apply quiet_fetch || apply quiet_response_json || quiet_step).
Qed.

Lemma quiet_settle W r : quiet (settle W r).
Proof.
  unfold settle. repeat (apply quiet_response_json || quiet_step).
Qed.

Lemma quiet_apiCall W path options : quiet (apiCall W path options).
Proof.
  unfold apiCall.
  repeat (apply quiet_fetch || apply quiet_settle || apply quiet_login
          || quiet_step).
Qed.

Lemma rdsOnly_emit e s : rdsOnly (published [e]) s (snd (emit e s)).
Proof. repeat split. exists [e]. auto. Qed.

(** [writeWorksiteState] always returns, and publishes the one write. *)
Lemma writeWorksiteState_publishes W site filledBool context s :
  exists s', writeWorksiteState W site filledBool context s = (Ret tt, s') /\
             rdsOnly [(siteId site, filledBool)] s s'.
Proof.
  unfold writeWorksiteState, setWorkSiteFilled, setWorkSiteEmpty.
  destruct filledBool.
  - pose proof (rdsOnly_emit (EvInvoke (MSetWorkSiteFilled (siteId site))) s) as He.
    unfold try_catch, bind. destruct (emit _ s) as [[[]|e0] s0] eqn:Hemit;
      [| discriminate Hemit].
    cbn [snd] in He.
    match goal with |- context [apiCall W ?p ?o s0] =>
      pose proof (quiet_apiCall W p o s0) as Hq;
      destruct (apiCall W p o s0) as [[v|e] s1]
    end; cbn [snd] in Hq.
    + exists s1. split; [reflexivity |].
      apply (rdsOnly_trans _ _ _ _ _ He Hq).
    + eexists. split; [reflexivity |].
      pose proof (rdsOnly_trans _ _ _ _ _ He Hq) as H1.
      apply (rdsOnly_trans _ _ _ _ _ H1
               (rdsOnly_emit (EvConsoleError (LogWriteFailed (siteId site) context e)) s1)).
  - pose proof (rdsOnly_emit (EvInvoke (MSetWorkSiteEmpty (siteId site))) s) as He.
    unfold try_catch, bind. destruct (emit _ s) as [[[]|e0] s0] eqn:Hemit;
      [| discriminate Hemit].
    cbn [snd] in He.
    match goal with |- context [apiCall W ?p ?o s0] =>
      pose proof (quiet_apiCall W p o s0) as Hq;
      destruct (apiCall W p o s0) as [[v|e] s1]
    end; cbn [snd] in Hq.
    + exists s1. split; [reflexivity |].
      apply (rdsOnly_trans _ _ _ _ _ He Hq).
    + eexists. split; [reflexivity |].
      pose proof (rdsOnly_trans _ _ _ _ _ He Hq) as H1.
      apply (rdsOnly_trans _ _ _ _ _ H1
               (rdsOnly_emit (EvConsoleError (LogWriteFailed (siteId site) context e)) s1)).
Qed.

(** [setSitesDefault] always returns, and publishes the default of each
    site, in the order of the list. *)
Lemma setSitesDefault_publishes W context ss : forall s,
  exists s', setSitesDefault W ss context s = (Ret tt, s') /\
             rdsOnly (map defaultWrite ss) s s'.
Proof.
  unfold setSitesDefault.
  induction ss as [|site ss IH]; intros s; cbn [forEach map].
  - exists s. split; [reflexivity | apply rdsOnly_refl].
  - unfold bind.
    match goal with |- context [writeWorksiteState W ?a ?b ?c ?d] =>
      destruct (writeWorksiteState_publishes W a b c d) as (s1 & -> & H1)
    end.
    destruct (IH s1) as (s2 & -> & H2).
    exists s2. split; [reflexivity |].
    apply (rdsOnly_trans [defaultWrite site] (map defaultWrite ss) s s1 s2); assumption.
Qed.

(** *** Failing reads *)

Ltac run_read :=
  unfold Tagged.readInputsForGroup, Tagged.ensureClient, Throwing.readInputsForGroup,
    connect, readDiscreteInputs, closeQuietly;
  unfold_monad.

(** A read that fails with an error: the client is closed (whatever
    [close] does), dropped, and the time of the failure recorded. *)
Lemma tagged_read_error W group s ms c msg :
  modbusStates s !! key group = Some ms ->
  client ms = Some c ->
  read_at W (S (tick s)) = ReadError msg ->
  Tagged.readInputsForGroup W group s
  = (Ret (Tagged.StatusError ("readDiscreteInputs failed: " ++ messageOf (Error msg))),
     mkSt (<[key group := mkModbusState None (now_at W (S (S (S (tick s)))))]>
             (modbusStates s))
          (debounceStates s) (api s) (S (S (S (S (tick s)))))
          (trace s ++ [EvReadDiscreteInputs (key group) (startAddr group)
                                            (readLength group);
                       EvClose (key group)])).
Proof.
  intros Hms Hc Hread. run_read. rewrite Hms. step_state. rewrite Hc. step_state.
  rewrite Hread. step_state. now rewrite <- app_assoc.
Qed.

(** A connect that fails: no client is stored, and the attempt is on
    record at the time of the call. *)
Lemma tagged_connect_failure W group s msg :
  match modbusStates s !! key group with
  | Some ms => client ms = None /\
               (lastAttemptMs ms = 0 \/
                RECONNECT_BACKOFF_MS <= now_at W (tick s) - lastAttemptMs ms)
  | None => True
  end ->
  connect_at W (S (tick s)) = Some msg ->
  Tagged.readInputsForGroup W group s
  = (Ret (Tagged.StatusError ("connect failed: " ++ messageOf (Error msg))),
     mkSt (<[key group := mkModbusState None (now_at W (tick s))]> (modbusStates s))
          (debounceStates s) (api s) (S (S (tick s)))
          (trace s ++ [EvConnectTCP (g_ip group) (g_port group)])).
Proof.
  intros Hpre Hconn. run_read.
  destruct (modbusStates s !! key group) as [ms|] eqn:Hms; step_state.
  - destruct Hpre as [Hc Hdue]. rewrite Hc.
    assert (negb (lastAttemptMs ms =? 0)
            && (now_at W (tick s) - lastAttemptMs ms <? RECONNECT_BACKOFF_MS) = false)
      as ->.
    { destruct Hdue as [-> | Hge]; [reflexivity |].
      apply andb_false_iff. right. apply Z.ltb_ge. exact Hge. }
    step_state. rewrite Hconn. reflexivity.
  - rewrite andb_false_l. step_state. rewrite Hconn. step_state.
    now rewrite insert_insert_eq.
Qed.

(** The same malformed response in the copy that throws: the [throw] is
    inside the [try], so the handler closes and drops the client. *)
Lemma throwing_malformed_response W group s ms c :
  modbusStates s !! key group = Some ms ->
  client ms = Some c ->
  read_at W (S (tick s)) = ReadMalformed ->
  Throwing.readInputsForGroup W group s
  = (Throw (Error ("Invalid response format from readDiscreteInputs for " ++ key group)),
     mkSt (<[key group := mkModbusState None (now_at W (S (S (S (tick s)))))]>
             (modbusStates s))
          (debounceStates s) (api s) (S (S (S (S (tick s)))))
          (trace s ++ [EvReadDiscreteInputs (key group) (startAddr group)
                                            (readLength group);
                       EvConsoleError
                         (LogReadFailed (key group)
                            (Error ("Invalid response format from readDiscreteInputs for "
                                    ++ key group)));
                       EvClose (key group)])).
Proof.
  intros Hms Hc Hread. run_read. rewrite Hms. step_state. rewrite Hc. step_state.
  rewrite Hread. step_state. now rewrite <- !app_assoc.
Qed.

(** C3: the failing case.  In the copy of [readInputsForGroup] that returns
    a status, a response that is not of the form [{data: [...]}] is
    answered by [return { status: "error", ... }] from inside the [try]
    block, so the handler that closes the client does not run: the result
    is an error, the only event added to the trace is the request (no
    [close]), and the stored state of the group still holds the client and
    the old time of the last attempt. *)
Theorem malformed_response_keeps_client
    (W : World) (group : Group) (s : St) (ms : ModbusState) (c : Client) :
  modbusStates s !! key group = Some ms ->
  client ms = Some c ->
  read_at W (S (tick s)) = ReadMalformed ->
  Tagged.readInputsForGroup W group s
  = (Ret (Tagged.StatusError "invalid readDiscreteInputs response format"),
     mkSt (modbusStates s) (debounceStates s) (api s) (S (S (tick s)))
          (trace s ++ [EvReadDiscreteInputs (key group) (startAddr group)
                                            (readLength group)])) /\
  modbusStates (snd (Tagged.readInputsForGroup W group s)) !! key group = Some ms.
Proof.
  intros Hms Hc Hread.
  assert (Tagged.readInputsForGroup W group s
          = (Ret (Tagged.StatusError "invalid readDiscreteInputs response format"),
             mkSt (modbusStates s) (debounceStates s) (api s) (S (S (tick s)))
                  (trace s ++ [EvReadDiscreteInputs (key group) (startAddr group)
                                                    (readLength group)]))) as E.
  { run_read. rewrite Hms. step_state. rewrite Hc. step_state.
    rewrite Hread. reflexivity. }
  rewrite E. split; [reflexivity | exact Hms].
Qed.

Lemma malformed_response_keeps_client_witness :
  let W := sampleWorld (fun _ => 9000) (fun _ => None) (fun _ => ReadMalformed)
                       (fun _ => FetchRejects "down") in
  let c := mkClient "10.6.44.70" 502 1000 255 in
  let s := sampleSt {[ key pickGroup := mkModbusState (Some c) 1000 ]} (Some "t") "en" in
  Tagged.readInputsForGroup W pickGroup s
  = (Ret (Tagged.StatusError "invalid readDiscreteInputs response format"),
     mkSt (modbusStates s) (debounceStates s) (api s) 2
          [EvReadDiscreteInputs (key pickGroup) 9 1]) /\
  modbusStates (snd (Tagged.readInputsForGroup W pickGroup s)) !! key pickGroup
  = Some (mkModbusState (Some c) 1000).
Proof.
  intros W c s.
  apply (malformed_response_keeps_client W pickGroup s (mkModbusState (Some c) 1000) c);
    reflexivity.
Defined.

(** *** The fallback of the sync cycle *)

(** On a tick where the read of a group returns the status [error], the
    loop body logs the error once, deletes the debounce state of every
    site of the group and publishes each site's default, in order. *)
Lemma tagged_error_tick W group s s1 msg :
  Tagged.readInputsForGroup W group s = (Ret (Tagged.StatusError msg), s1) ->
  exists s',
    Tagged.syncGroup W group s = (Ret tt, s') /\
    (forall site, In site (sites group) -> debounceStates s' !! siteId site = None) /\
    modbusStates s' = modbusStates s1 /\
    exists evs,
      trace s' = (trace s1 ++ EvConsoleError (LogGroupError (key group) msg) :: evs)%list /\
      published evs = map defaultWrite (sites group).
Proof.
  intros Hread. unfold Tagged.syncGroup. unfold bind at 1. rewrite Hread.
  unfold bind, emit, withDebounce. step_state.
  match goal with |- context [setSitesDefault W ?ss ?ctx ?s0] =>
    destruct (setSitesDefault_publishes W ctx ss s0) as (s' & -> & Hm & Hd & evs & Ht & Hp)
  end.
  exists s'. split; [reflexivity |]. cbn [modbusStates debounceStates trace] in *.
  split; [| split; [assumption |]].
  - intros site Hin. rewrite Hd. apply reset_lookup_member. now apply in_map.
  - exists evs. split; [| assumption]. rewrite Ht, <- app_assoc. reflexivity.
Qed.

(** The copy that throws does the same on every throw of the read. *)
Lemma throwing_error_tick W group s s1 e :
  Throwing.readInputsForGroup W group s = (Throw e, s1) ->
  exists s',
    Throwing.syncGroup W group s = (Ret tt, s') /\
    (forall site, In site (sites group) -> debounceStates s' !! siteId site = None) /\
    modbusStates s' = modbusStates s1 /\
    exists evs,
      trace s' = (trace s1 ++ evs)%list /\
      published evs = map defaultWrite (sites group).
Proof.
  intros Hread. unfold Throwing.syncGroup. unfold bind at 1, try_catch, bind at 1.
  rewrite Hread. unfold ret at 1. cbv beta iota zeta.
  unfold bind, withDebounce. step_state.
  match goal with |- context [setSitesDefault W ?ss ?ctx ?s0] =>
    destruct (setSitesDefault_publishes W ctx ss s0) as (s' & -> & Hm & Hd & evs & Ht & Hp)
  end.
  exists s'. split; [reflexivity |]. cbn [modbusStates debounceStates trace] in *.
  split; [| split; [assumption |]].
  - intros site Hin. rewrite Hd. apply reset_lookup_member. now apply in_map.
  - exists evs. split; assumption.
Qed.

(** In particular the copy that throws treats the backoff window as an
    error: every tick inside it resets the debounce states of the group
    and writes the defaults again. *)
Lemma throwing_backoff_tick W group s ms :
  modbusStates s !! key group = Some ms ->
  client ms = None ->
  now_at W (tick s) - lastAttemptMs ms < RECONNECT_BACKOFF_MS ->
  exists s',
    Throwing.syncGroup W group s = (Ret tt, s') /\
    (forall site, In site (sites group) -> debounceStates s' !! siteId site = None) /\
    exists evs,
      trace s' = (trace s ++ evs)%list /\
      published evs = map defaultWrite (sites group).
Proof.
  intros Hms Hc Hwin.
  destruct (throwing_error_tick W group s _ _ (throwing_backoff_window W group s ms Hms Hc Hwin))
    as (s' & Hrun & Hd & _ & evs & Ht & Hp).
  exists s'. split; [assumption |]. split; [assumption |].
  exists evs. split; assumption.
Qed.

(** ** The RDS client *)

(** *** [login] *)

Ltac run_api :=
  unfold apiCall, apiCall_overridden, login, fetch, settle, response_json;
  unfold_monad.

(** The request of [login]: a POST of the user name and the MD5 digest of
    the password to [/admin/login]; it is the first thing [login] does. *)
Lemma login_request W s :
  exists evs,
    trace (snd (login W s))
    = (trace s ++ EvInvoke MLogin
        :: EvFetch (apiHost (api s) ++ "/admin/login")
             (mkOptions "POST" (Some {[ "Content-Type" := "application/json" ]})
                (Some (LoginData (username (api s)) (md5 W (password (api s))))))
        :: evs)%list.
Proof.
  run_api. step_state.
  destruct (fetch_at W (tick s)) as [msg|r]; step_state.
  - exists []. now rewrite <- app_assoc.
  - destruct (ok r); cbn [negb]; step_state.
    + destruct (setCookie r) as [h|]; [destruct (match_JSESSIONID h) as [tok|] |];
        step_state.
      * destruct (JSON_parse W (body r)); step_state; eexists;
          rewrite <- ?app_assoc; reflexivity.
      * exists []. now rewrite <- app_assoc.
      * exists []. now rewrite <- app_assoc.
    + exists []. now rewrite <- app_assoc.
Qed.

(** A 2xx response whose cookie carries a token and whose body decodes:
    the token is stored and [login] returns. *)
Lemma login_stores_token W s r h tok j :
  fetch_at W (tick s) = FetchResolves r ->
  ok r = true ->
  setCookie r = Some h ->
  match_JSESSIONID h = Some tok ->
  JSON_parse W (body r) = Some j ->
  fst (login W s) = Ret tt /\
  sessionId (api (snd (login W s))) = Some tok /\
  tick (snd (login W s)) = S (tick s).
Proof.
  intros Hf Hok Hc Hm Hj. run_api. step_state.
  rewrite Hf. step_state. rewrite Hok. cbn [negb]. rewrite Hc, Hm. step_state.
  rewrite Hj. step_state. auto.
Qed.

(** A 2xx response from which no token can be taken: [login] fails, and
    the stored session is cleared. *)
Lemma login_without_token_fails W s r :
  fetch_at W (tick s) = FetchResolves r ->
  ok r = true ->
  match setCookie r with Some h => match_JSESSIONID h | None => None end = None ->
  fst (login W s) = Throw MissingSessionCookie /\
  sessionId (api (snd (login W s))) = None.
Proof.
  intros Hf Hok Hm. run_api. step_state.
  rewrite Hf. step_state. rewrite Hok. cbn [negb]. rewrite Hm. step_state. auto.
Qed.

(** The cookie parser on a typical header. *)
Example match_JSESSIONID_example :
  match_JSESSIONID "lang=en; Path=/, JSESSIONID=0A1B2C; Path=/; HttpOnly" = Some "0A1B2C"
  /\ match_JSESSIONID "JSESSIONID=; Path=/" = None
  /\ match_JSESSIONID "" = None.
Proof. repeat split; reflexivity. Qed.

(** C8: the failing case.  [login] awaits [response.json()] after it has
    stored the token, so a 2xx response whose cookie carries a token but
    whose body is not JSON (an empty body, say) makes [login] throw the
    decoder's error: the body is not ignored.  The token stays stored. *)
Theorem login_depends_on_body
    (W : World) (s : St) (r : Response) (h tok : string) :
  fetch_at W (tick s) = FetchResolves r ->
  ok r = true ->
  setCookie r = Some h ->
  match_JSESSIONID h = Some tok ->
  JSON_parse W (body r) = None ->
  fst (login W s) = Throw SyntaxError /\
  sessionId (api (snd (login W s))) = Some tok.
Proof.
  intros Hf Hok Hc Hm Hj. run_api. step_state.
  rewrite Hf. step_state. rewrite Hok. cbn [negb]. rewrite Hc, Hm. step_state.
  rewrite Hj. step_state. auto.
Qed.

Lemma login_depends_on_body_witness :
  let r := mkResponse 200 (Some "JSESSIONID=0A1B2C; Path=/; HttpOnly") "" in
  let W := sampleWorld (fun _ => 0) (fun _ => None) (fun _ => ReadMalformed)
                       (fun _ => FetchResolves r) in
  let s := sampleSt ∅ None "en" in
  fst (login W s) = Throw SyntaxError /\
  sessionId (api (snd (login W s))) = Some "0A1B2C".
Proof.
  intros r W s.
  apply (login_depends_on_body W s r "JSESSIONID=0A1B2C; Path=/; HttpOnly" "0A1B2C");
    reflexivity.
Defined.

(** *** [apiCall] *)

Lemma sessionExpired_iff r : sessionExpired r = true <-> status r = 401 \/ status r = 403.
Proof.
  unfold sessionExpired. rewrite orb_true_iff, !Z.eqb_eq. reflexivity.
Qed.

(** With a session, a first response that is not 401 or 403 is settled as
    it is: one request, no [login]. *)
Lemma apiCall_no_trigger W path options s r1 :
  hasSession (sessionId (api s)) = true ->
  fetch_at W (tick s) = FetchResolves r1 ->
  sessionExpired r1 = false ->
  apiCall W path options s
  = settle W r1
      (mkSt (modbusStates s) (debounceStates s) (api s) (S (tick s))
            (trace s ++ [EvFetch (apiHost (api s) ++ path)
                           (mkOptions (method options)
                              (Some (requestHeaders (api s) options))
                              (payload options))])).
Proof.
  intros Hs Hf Hx. unfold apiCall, fetch. unfold_monad. step_state.
  rewrite Hs. step_state. rewrite Hf. step_state. rewrite Hx. reflexivity.
Qed.

(** With a session, a first response 401 or 403 is followed by the log
    line and [login]; when [login] throws, so does the call, and nothing
    is sent again. *)
Lemma apiCall_relogin_failed W path options s r1 e s3 :
  hasSession (sessionId (api s)) = true ->
  fetch_at W (tick s) = FetchResolves r1 ->
  sessionExpired r1 = true ->
  login W (mkSt (modbusStates s) (debounceStates s) (api s) (S (tick s))
                (trace s ++ [EvFetch (apiHost (api s) ++ path)
                               (mkOptions (method options)
                                  (Some (requestHeaders (api s) options))
                                  (payload options));
                             EvConsoleLog LogSessionExpired]))
  = (Throw e, s3) ->
  apiCall W path options s = (Throw e, s3).
Proof.
  intros Hs Hf Hx Hl. unfold apiCall, fetch. unfold_monad. step_state.
  rewrite Hs. step_state. rewrite Hf. step_state. rewrite Hx. step_state.
  rewrite <- app_assoc. cbn [app]. rewrite Hl. reflexivity.
Qed.

(** When [login] returns, the request is sent once more, with the new
    cookie, and whatever comes back is settled. *)
Lemma apiCall_resend W path options s r1 s3 :
  hasSession (sessionId (api s)) = true ->
  fetch_at W (tick s) = FetchResolves r1 ->
  sessionExpired r1 = true ->
  login W (mkSt (modbusStates s) (debounceStates s) (api s) (S (tick s))
                (trace s ++ [EvFetch (apiHost (api s) ++ path)
                               (mkOptions (method options)
                                  (Some (requestHeaders (api s) options))
                                  (payload options));
                             EvConsoleLog LogSessionExpired]))
  = (Ret tt, s3) ->
  apiCall W path options s
  = bind (fetch W (apiHost (api s) ++ path)
            (mkOptions (method options)
               (Some (<[ "Cookie" := cookieOf (sessionId (api s3)) ]>
                        (requestHeaders (api s) options)))
               (payload options)))
         (settle W) s3.
Proof.
  intros Hs Hf Hx Hl. unfold apiCall, fetch. unfold_monad. step_state.
  rewrite Hs. step_state. rewrite Hf. step_state. rewrite Hx. step_state.
  rewrite <- app_assoc. cbn [app]. rewrite Hl. step_state.
  destruct (fetch_at W (tick s3)); reflexivity.
Qed.

(** [settle] is the end of the call: it asks nothing more of the world,
    leaves the client as it is, adds at most the line that logs the body
    of a 400, and throws the status of a response that is not [ok]. *)
Lemma settle_is_final W r s0 :
  tick (snd (settle W r s0)) = tick s0 /\
  api (snd (settle W r s0)) = api s0 /\
  (trace (snd (settle W r s0)) = trace s0 \/
   trace (snd (settle W r s0))
   = (trace s0 ++ [EvConsoleError (LogBody400 (body r))])%list) /\
  (ok r = false -> fst (settle W r s0) = Throw (ApiStatusError (status r) None)).
Proof.
  unfold settle, response_json. unfold_monad.
  destruct (ok r); cbn [negb]; step_state.
  - destruct (JSON_parse W (body r)); step_state; repeat split; auto; discriminate.
  - destruct (status r =? 400); step_state; repeat split; auto.
Qed.

(** With a session, a first request that is rejected is the end of the
    call: the rejection is thrown, and neither [login] nor a second request
    follows. *)
Lemma apiCall_first_rejected W path options s msg :
  hasSession (sessionId (api s)) = true ->
  fetch_at W (tick s) = FetchRejects msg ->
  apiCall W path options s
  = (Throw (FetchError msg),
     mkSt (modbusStates s) (debounceStates s) (api s) (S (tick s))
          (trace s ++ [EvFetch (apiHost (api s) ++ path)
                         (mkOptions (method options)
                            (Some (requestHeaders (api s) options))
                            (payload options))])).
Proof.
  intros Hs Hf. unfold apiCall, fetch. unfold_monad. step_state.
  rewrite Hs. step_state. rewrite Hf. reflexivity.
Qed.

(** The policy for a call made with a session, whose first request is
    answered.  A first status other than 401 and 403 (400 included) is
    settled at once, without [login] and without a second request.  A first
    status 401 or 403 is followed by [login]: when it throws, the call
    throws the same and sends nothing more; when it returns, the request is
    sent exactly once more with the new cookie and its answer is settled.
    Settling is final: it asks nothing more of the world and throws the
    status of any response that is not 2xx, a second 401 or 403 included. *)
Lemma relogin_with_session
    (W : World) (path : string) (options : Options) (s : St) (r1 : Response) :
  hasSession (sessionId (api s)) = true ->
  fetch_at W (tick s) = FetchResolves r1 ->
  let url := apiHost (api s) ++ path in
  let h := requestHeaders (api s) options in
  let sent := mkSt (modbusStates s) (debounceStates s) (api s) (S (tick s))
                   (trace s ++ [EvFetch url (mkOptions (method options) (Some h)
                                               (payload options))]) in
  let logged := mkSt (modbusStates s) (debounceStates s) (api s) (S (tick s))
                     (trace s ++ [EvFetch url (mkOptions (method options) (Some h)
                                                 (payload options));
                                  EvConsoleLog LogSessionExpired]) in
  (sessionExpired r1 = true <-> status r1 = 401 \/ status r1 = 403) /\
  (sessionExpired r1 = false -> apiCall W path options s = settle W r1 sent) /\
  (sessionExpired r1 = true ->
   forall e s3, login W logged = (Throw e, s3) ->
                apiCall W path options s = (Throw e, s3)) /\
  (sessionExpired r1 = true ->
   forall s3, login W logged = (Ret tt, s3) ->
     apiCall W path options s
     = bind (fetch W url
               (mkOptions (method options)
                  (Some (<[ "Cookie" := cookieOf (sessionId (api s3)) ]> h))
                  (payload options)))
            (settle W) s3) /\
  (forall r s0,
     tick (snd (settle W r s0)) = tick s0 /\
     api (snd (settle W r s0)) = api s0 /\
     (trace (snd (settle W r s0)) = trace s0 \/
      trace (snd (settle W r s0))
      = (trace s0 ++ [EvConsoleError (LogBody400 (body r))])%list) /\
     (ok r = false -> fst (settle W r s0) = Throw (ApiStatusError (status r) None))).
Proof.
  intros Hs Hf url h sent logged. subst url h sent logged.
  split; [apply sessionExpired_iff |].
  split; [intros Hx; now apply apiCall_no_trigger |].
  split; [intros Hx e s3 Hl; now apply (apiCall_relogin_failed W path options s r1) |].
  split; [intros Hx s3 Hl; now apply (apiCall_resend W path options s r1) |].
  intros r s0. apply settle_is_final.
Qed.

(** A session that has expired and expires again at once: three requests
    in all, the new token stored, the second 401 thrown. *)
Example relogin_with_expired_session :
  let s := sampleSt ∅ (Some "OLD") "en" in
  let run := apiCall expiringWorld "/api/work-sites/worksiteUnFiled"
                     (writeOptions "PICK-01") s in
  fst run = Throw (ApiStatusError 401 None) /\
  tick (snd run) = 3%nat /\
  sessionId (api (snd run)) = Some "NEW".
Proof.
  intros s run. subst run.
  destruct (relogin_with_session expiringWorld "/api/work-sites/worksiteUnFiled"
              (writeOptions "PICK-01") s (mkResponse 401 None "") eq_refl eq_refl)
    as (_ & _ & _ & Hresend & _).
  rewrite (Hresend eq_refl
             (mkSt ∅ ∅ (mkAPIClient RDS_HOST RDS_USER RDS_PASS (Some "NEW") "en") 2
                (trace s ++
                 [EvFetch (RDS_HOST ++ "/api/work-sites/worksiteUnFiled")
                    (mkOptions "POST"
                       (Some (requestHeaders (api s) (writeOptions "PICK-01")))
                       (Some (WorkSiteIds ["PICK-01"])));
                  EvConsoleLog LogSessionExpired;
                  EvInvoke MLogin;
                  EvFetch (RDS_HOST ++ "/admin/login")
                    (mkOptions "POST" (Some {[ "Content-Type" := "application/json" ]})
                       (Some (LoginData RDS_USER (sampleMd5 RDS_PASS))));
                  EvConsoleLog (LogLoggedIn "NEW")])%list)
             eq_refl).
  repeat split.
Qed.

(** The scenario "session expiry mid-cycle", with a second 401: one
    [login], the request sent twice, and the error of the second answer. *)
Example second_401_surfaces :
  let s := sampleSt ∅ (Some "OLD") "en" in
  let run := setWorkSiteEmpty expiringWorld "PICK-01" s in
  fst run = Throw (ApiStatusError 401 None) /\
  map (fun ev => match ev with
                 | EvFetch url _ => url
                 | EvInvoke MLogin => "login()"
                 | EvInvoke _ => "write"
                 | _ => "log"
                 end) (trace (snd run))
  = ["write";
     "http://10.6.44.2:8080/api/work-sites/worksiteUnFiled";
     "log"; "login()";
     "http://10.6.44.2:8080/admin/login";
     "log";
     "http://10.6.44.2:8080/api/work-sites/worksiteUnFiled"].
Proof. split; vm_compute; reflexivity. Qed.

(** A 400 is not a reason to log in again: one request, the body logged,
    the status thrown. *)
Example status_400_is_not_session_expiry :
  let s := sampleSt ∅ (Some "OLD") "en" in
  let run := setWorkSiteEmpty (steadyWorld 400 None "bad request") "PICK-01" s in
  fst run = Throw (ApiStatusError 400 None) /\
  tick (snd run) = 1%nat /\
  published (trace (snd run)) = [("PICK-01", false)] /\
  ~ In (EvInvoke MLogin) (trace (snd run)).
Proof.
  repeat split; try (vm_compute; reflexivity).
  vm_compute. intros H. repeat destruct H as [H|H]; try discriminate H. exact H.
Qed.

Lemma ok_not_expired r : ok r = true -> sessionExpired r = false.
Proof.
  unfold ok, sessionExpired. rewrite andb_true_iff, !Z.leb_le. intros [H1 H2].
  apply orb_false_iff. split; apply Z.eqb_neq; lia.
Qed.

(** C6: the failing case.  The [apiCall] in force returns
    [response.json()], so a 2xx response whose body the decoder rejects
    (the empty body, or any text that is not JSON) makes the call throw the
    decoder's error; it neither returns [null] nor falls back to the text.
    The first [apiCall] of the class, which the second replaces, does both. *)
Theorem undecodable_body_throws
    (W : World) (path : string) (options : Options) (s : St) (r : Response) :
  hasSession (sessionId (api s)) = true ->
  fetch_at W (tick s) = FetchResolves r ->
  ok r = true ->
  JSON_parse W (body r) = None ->
  fst (apiCall W path options s) = Throw SyntaxError /\
  fst (apiCall_overridden W path options s)
  = Ret (if String.eqb (body r) "" then VNull else VText (body r)).
Proof.
  intros Hs Hf Hok Hj. split.
  - rewrite (apiCall_no_trigger W path options s r Hs Hf (ok_not_expired r Hok)).
    unfold settle, response_json. unfold_monad. rewrite Hok. cbn [negb].
    rewrite Hj. reflexivity.
  - unfold apiCall_overridden, fetch. unfold_monad. step_state.
    rewrite Hf. step_state. rewrite (ok_not_expired r Hok). step_state.
    rewrite Hok. cbn [negb].
    destruct (String.eqb (body r) ""); [reflexivity |]. now rewrite Hj.
Qed.

Lemma undecodable_body_throws_witness :
  let W := steadyWorld 200 None "" in
  let s := sampleSt ∅ (Some "0A1B2C") "en" in
  fst (apiCall W "/api/work-sites/worksiteFiled" (writeOptions "PICK-01") s)
  = Throw SyntaxError /\
  fst (apiCall_overridden W "/api/work-sites/worksiteFiled" (writeOptions "PICK-01") s)
  = Ret VNull.
Proof.
  intros W s.
  apply (undecodable_body_throws W "/api/work-sites/worksiteFiled"
           (writeOptions "PICK-01") s (mkResponse 200 None ""));
    reflexivity.
Defined.

Lemma requestHeaders_lookup this options :
  requestHeaders this options !! "Cookie" = Some (cookieOf (sessionId this)) /\
  requestHeaders this options !! "Content-Type" = Some "application/json" /\
  requestHeaders this options !! "Language" = Some "en".
Proof.
  unfold requestHeaders. repeat split.
  - rewrite lookup_insert_ne by discriminate. apply lookup_insert_eq.
  - rewrite !lookup_insert_ne by discriminate. apply lookup_insert_eq.
  - apply lookup_insert_eq.
Qed.

(** The first event of a call made with a session is its request. *)
Lemma apiCall_first_request W path options s :
  hasSession (sessionId (api s)) = true ->
  exists evs,
    trace (snd (apiCall W path options s))
    = (trace s ++ EvFetch (apiHost (api s) ++ path)
                    (mkOptions (method options)
                       (Some (requestHeaders (api s) options)) (payload options))
                  :: evs)%list.
Proof.
  intros Hs.
  destruct (fetch_at W (tick s)) as [msg|r1] eqn:Hf.
  - exists []. unfold apiCall, fetch. unfold_monad. step_state.
    rewrite Hs. step_state. rewrite Hf. reflexivity.
  - destruct (sessionExpired r1) eqn:Hx.
    + match goal with |- context [EvFetch ?u ?o] =>
        destruct (login W (mkSt (modbusStates s) (debounceStates s) (api s) (S (tick s))
                                (trace s ++ [EvFetch u o; EvConsoleLog LogSessionExpired])))
          as [[[]|e] s3] eqn:Hl;
        pose proof (quiet_login W (mkSt (modbusStates s) (debounceStates s) (api s)
                                        (S (tick s))
                                        (trace s ++ [EvFetch u o;
                                                     EvConsoleLog LogSessionExpired])))
          as (_ & _ & evs1 & Ht1 & _)
      end; rewrite Hl in Ht1; cbn [snd trace] in Ht1.
      * rewrite (apiCall_resend W path options s r1 s3 Hs Hf Hx Hl).
        match goal with |- context [bind ?m ?k s3] =>
          destruct (quiet_bind m k (quiet_fetch W _ _) (quiet_settle W) s3)
            as (_ & _ & evs2 & Ht2 & _)
        end.
        rewrite Ht2, Ht1. eexists. rewrite <- !app_assoc. cbn [app]. reflexivity.
      * rewrite (apiCall_relogin_failed W path options s r1 e s3 Hs Hf Hx Hl).
        cbn [snd]. rewrite Ht1. eexists. rewrite <- !app_assoc. cbn [app]. reflexivity.
    + rewrite (apiCall_no_trigger W path options s r1 Hs Hf Hx).
      match goal with |- context [settle W r1 ?s1] =>
        destruct (quiet_settle W r1 s1) as (_ & _ & evs & Ht & _)
      end.
      rewrite Ht. cbn [trace]. eexists. rewrite <- !app_assoc. cbn [app]. reflexivity.
Qed.

(** C7: what the code does.  The request of a call made with a session
    carries the session cookie and [Content-Type: application/json], and
    its [Language] header is the literal ["en"], whatever language the
    client was configured with. *)
Theorem language_header_is_en
    (W : World) (path : string) (options : Options) (s : St) :
  hasSession (sessionId (api s)) = true ->
  exists h evs,
    trace (snd (apiCall W path options s))
    = (trace s ++ EvFetch (apiHost (api s) ++ path)
                    (mkOptions (method options) (Some h) (payload options))
                  :: evs)%list /\
    h !! "Cookie" = Some (cookieOf (sessionId (api s))) /\
    h !! "Content-Type" = Some "application/json" /\
    h !! "Language" = Some "en".
Proof.
  intros Hs. destruct (apiCall_first_request W path options s Hs) as [evs Ht].
  exists (requestHeaders (api s) options), evs.
  split; [exact Ht | apply requestHeaders_lookup].
Qed.

Lemma language_header_is_en_witness :
  let W := steadyWorld 200 None "{}" in
  let s := sampleSt ∅ (Some "0A1B2C") "pl" in
  language (api s) = "pl" /\
  exists h evs,
    trace (snd (apiCall W "/api/work-sites/worksiteFiled" (writeOptions "PICK-01") s))
    = (trace s ++ EvFetch (apiHost (api s) ++ "/api/work-sites/worksiteFiled")
                    (mkOptions "POST" (Some h) (Some (WorkSiteIds ["PICK-01"])))
                  :: evs)%list /\
    h !! "Cookie" = Some (cookieOf (sessionId (api s))) /\
    h !! "Content-Type" = Some "application/json" /\
    h !! "Language" = Some "en".
Proof.
  intros W s. split; [reflexivity |].
  apply (language_header_is_en W "/api/work-sites/worksiteFiled"
           (writeOptions "PICK-01") s).
  reflexivity.
Defined.

(** The first [apiCall] of the class, which is not the one in force, sends
    the configured language. *)
Example overridden_apiCall_sends_language :
  let s := sampleSt ∅ (Some "0A1B2C") "pl" in
  match trace (snd (apiCall_overridden (steadyWorld 200 None "{}")
                      "/api/work-sites/worksiteFiled" (writeOptions "PICK-01") s)) with
  | EvFetch _ o :: _ => default ∅ (headers o) !! "Language"
  | _ => None
  end = Some "pl".
Proof. vm_compute. reflexivity. Qed.

(** ** Two ticks of the whole cycle, run *)

(** "DROP default filled under outage": the refused connect publishes the
    default and leaves no debounce state; the tick 500 ms later is inside
    the backoff window and adds nothing to the trace; the tick 5000 ms
    after the failure connects again. *)
Example drop_default_under_outage :
  let groups := groupSitesByConnection dropSites in
  let s1 := snd (Tagged.syncOnce outageWorld groups (sampleSt ∅ (Some "0A1B2C") "en")) in
  let s2 := snd (Tagged.syncOnce outageWorld groups s1) in
  let s3 := snd (Tagged.syncOnce outageWorld groups s2) in
  published (trace s1) = [("DROP-01", true)] /\
  errorsOf (trace s1)
  = [LogGroupError "10.6.44.70:502:255" "connect failed: ECONNREFUSED"] /\
  debounceStates s1 = ∅ /\
  trace s2 = trace s1 /\
  length (List.filter isConnect (trace s2)) = 1%nat /\
  length (List.filter isConnect (trace s3)) = 2%nat /\
  published (trace s3) = [("DROP-01", true); ("DROP-01", true)].
Proof. repeat split; vm_compute; reflexivity. Qed.

(** "Misconfigured offset": the site at offset 12 maps to index 3 of a
    two-bit answer; the error names the site, the index and the offset, the
    site's default is written and it has no debounce state afterwards. *)
Example misconfigured_offset :
  let groups := groupSitesByConnection spreadSites in
  let s1 := snd (Tagged.syncOnce shortAnswerWorld groups
                   (sampleSt ∅ (Some "0A1B2C") "en")) in
  map (fun g => (startAddr g, readLength g)) groups = [(9, 4)] /\
  errorsOf (trace s1) = [LogMissingInput "PICK-04" 3 12 EMPTY] /\
  published (trace s1) = [("PICK-01", false); ("PICK-04", false)] /\
  debounceStates s1 !! "PICK-04" = None /\
  debounceStates s1 !! "PICK-01" = Some (mkDebounce (Some 1000000) false).
Proof. repeat split; vm_compute; reflexivity. Qed.

(** The same outage in the copy whose read throws: the tick inside the
    backoff window writes the default once more. *)
Example throwing_copy_rewrites_during_backoff :
  let groups := groupSitesByConnection dropSites in
  let s1 := snd (Throwing.syncOnce outageWorld groups (sampleSt ∅ (Some "0A1B2C") "en")) in
  let s2 := snd (Throwing.syncOnce outageWorld groups s1) in
  published (trace s1) = [("DROP-01", true)] /\
  published (trace s2) = [("DROP-01", true); ("DROP-01", true)] /\
  length (List.filter isConnect (trace s2)) = 1%nat.
Proof. repeat split; vm_compute; reflexivity. Qed.

(** * Further properties of the code *)

(** ** Debouncer: reset and sustained disagreement *)

Lemma update_on_absent site rawVal now m :
  m !! siteId site = None ->
  updateDebouncedState site rawVal now m
  = (defaultToBool (sdefault site),
     <[siteId site :=
         mkDebounce (if Bool.eqb rawVal (defaultToBool (sdefault site))
                     then None else Some now)
                    (defaultToBool (sdefault site))]> m).
Proof.
  intros Hm. unfold updateDebouncedState, stateOf. rewrite Hm.
  cbn [lastOppositeStartTs].
  destruct (Bool.eqb rawVal (defaultToBool (sdefault site))); reflexivity.
Qed.

(** X1: after a reset that names the site, the next update returns the
    site's default whatever the sample, and records the time of the sample
    as the start of the opposite run exactly when the sample disagrees. *)
Theorem reset_then_update_starts_from_default
    (ss : list Site) (site : Site) (rawVal : bool) (now : Z)
    (m : gmap string DebounceState) :
  In site ss ->
  fst (updateDebouncedState site rawVal now (resetDebounceForSites ss m))
  = defaultToBool (sdefault site) /\
  snd (updateDebouncedState site rawVal now (resetDebounceForSites ss m)) !! siteId site
  = Some (mkDebounce (if Bool.eqb rawVal (defaultToBool (sdefault site))
                      then None else Some now)
                     (defaultToBool (sdefault site))).
Proof.
  intros Hin.
  rewrite update_on_absent by (apply reset_lookup_member; now apply in_map).
  split; [reflexivity | apply lookup_insert_eq].
Qed.

Lemma feed_app site p q m :
  feed site (p ++ q)%list m
  = ((fst (feed site p m) ++ fst (feed site q (snd (feed site p m))))%list,
     snd (feed site q (snd (feed site p m)))).
Proof.
  revert m. induction p as [|[r t] p IH]; intros m; cbn [feed app].
  - cbn. now destruct (feed site q m).
  - destruct (updateDebouncedState site r t m) as [e m1].
    rewrite IH. destruct (feed site p m1) as [es m2]. cbn [fst snd].
    destruct (feed site q m2) as [es' m3]. reflexivity.
Qed.

Lemma runInv_step site p r t m :
  runInv site p (stateOf site m) ->
  runInv site (p ++ [(r, t)])%list (stateOf site (snd (updateDebouncedState site r t m))).
Proof.
  intros Hinv. unfold updateDebouncedState. cbn [snd]. unfold stateOf at 1.
  rewrite lookup_insert_eq. unfold runInv in *.
  destruct (Bool.eqb r (defaultToBool (sdefault site))) eqn:Hr; cbn [lastOppositeStartTs effectiveVal].
  - reflexivity.
  - assert (r = negb (defaultToBool (sdefault site))) as ->.
    { destruct r, (defaultToBool (sdefault site)); simpl in *; congruence. }
    destruct (lastOppositeStartTs (stateOf site m)) as [since|] eqn:Hts.
    + destruct Hinv as (pre & rest & -> & Hall & Hlate).
      destruct (Z.leb_spec FILL_DEBOUNCE_MS (t - since)) as [Hge|Hlt];
        cbn [lastOppositeStartTs effectiveVal].
      * exists pre, (rest ++ [(negb (defaultToBool (sdefault site)), t)])%list.
        split; [now rewrite <- app_assoc |]. split.
        -- apply Forall_app. split; [assumption | repeat constructor].
        -- intros _. apply Exists_app. right. constructor. exact Hge.
      * rewrite Hts.
        exists pre, (rest ++ [(negb (defaultToBool (sdefault site)), t)])%list.
        split; [now rewrite <- app_assoc |]. split.
        -- apply Forall_app. split; [assumption | repeat constructor].
        -- intros He. apply Exists_app. left. now apply Hlate.
    + cbn [lastOppositeStartTs effectiveVal].
      exists p, []. split; [reflexivity |]. split; [constructor |].
      intros He. destruct (defaultToBool (sdefault site)); discriminate.
Qed.

Lemma runInv_feed site p : forall p0 m,
  runInv site p0 (stateOf site m) ->
  runInv site (p0 ++ p)%list (stateOf site (snd (feed site p m))).
Proof.
  induction p as [|[r t] p IH]; intros p0 m H; cbn [feed].
  - now rewrite app_nil_r.
  - pose proof (runInv_step site p0 r t m H) as Hstep.
    destruct (updateDebouncedState site r t m) as [e m1]. cbn [snd] in Hstep.
    specialize (IH (p0 ++ [(r, t)])%list m1 Hstep).
    destruct (feed site p m1) as [es m2]. cbn [snd] in *.
    now rewrite <- app_assoc in IH.
Qed.

Lemma effective_after_update site r t m :
  effectiveVal (stateOf site (snd (updateDebouncedState site r t m)))
  = fst (updateDebouncedState site r t m).
Proof.
  unfold updateDebouncedState. cbn [fst snd]. unfold stateOf at 1.
  now rewrite lookup_insert_eq.
Qed.

Lemma last_result_is_stored site p m e :
  last (fst (feed site p m)) = Some e ->
  effectiveVal (stateOf site (snd (feed site p m))) = e.
Proof.
  induction p as [|[r t] p' _] using rev_ind; [discriminate |].
  rewrite feed_app. cbn [fst snd feed].
  pose proof (effective_after_update site r t (snd (feed site p' m))) as He.
  destruct (updateDebouncedState site r t (snd (feed site p' m))) as [e' m1].
  cbn [fst snd] in *. rewrite last_snoc. intros [= <-]. exact He.
Qed.

(** X2: starting with no state for the site, whenever an update returns the
    opposite of the default, the samples fed so far end in a run of
    disagreeing samples whose first one lies at least [FILL_DEBOUNCE_MS]
    before some later sample of the run: no agreeing sample interrupts the
    run, and the opposite is never returned without such a run. *)
Theorem opposite_needs_sustained_disagreement
    (site : Site) (samples : list (bool * Z)) (m : gmap string DebounceState) :
  m !! siteId site = None ->
  last (fst (feed site samples m)) = Some (negb (defaultToBool (sdefault site))) ->
  exists earlier since run,
    samples = (earlier ++ (negb (defaultToBool (sdefault site)), since) :: run)%list /\
    Forall (disagrees site) run /\
    Exists (lateEnough since) run.
Proof.
  intros Hm Hlast.
  assert (H0 : runInv site [] (stateOf site m)).
  { unfold runInv, stateOf. rewrite Hm. reflexivity. }
  pose proof (runInv_feed site samples [] m H0) as Hinv. cbn [app] in Hinv.
  pose proof (last_result_is_stored site samples m _ Hlast) as Heff.
  unfold runInv in Hinv.
  destruct (lastOppositeStartTs (stateOf site (snd (feed site samples m)))) as [since|].
  - destruct Hinv as (pre & rest & Hp & Hall & Hlate).
    exists pre, since, rest. auto.
  - rewrite Hinv in Heff. destruct (defaultToBool (sdefault site)); discriminate.
Qed.

(** ** Startup validation *)

Lemma validSiteId_Some v id :
  validSiteId v = Some id <-> v = JsString id /\ id <> "".
Proof.
  destruct v; simpl; try (split; [discriminate | intros [[=] _]]).
  destruct (String.eqb_spec s ""); split.
  - discriminate.
  - intros [[= ->] H]. contradiction.
  - intros [= ->]. auto.
  - intros [[= ->] _]. reflexivity.
Qed.

Lemma validOffset_true v : validOffset v = true <-> exists z, v = JsInteger z /\ 0 <= z.
Proof.
  destruct v; simpl; try (split; [discriminate | intros (z & [=] & _)]).
  rewrite negb_true_iff, Z.ltb_ge. split.
  - intros H. eauto.
  - intros (z' & [= ->] & H). exact H.
Qed.

Lemma validDefault_true v :
  validDefault v = true <-> v = JsString "EMPTY" \/ v = JsString "FILLED".
Proof.
  destruct v; simpl; try (split; [discriminate | intros [[=]|[=]]]).
  rewrite orb_true_iff, !String.eqb_eq. split.
  - intros [->| ->]; auto.
  - intros [[= ->]|[= ->]]; auto.
Qed.

Lemma validateFrom_None ss : forall seen,
  validateFrom seen ss = None <->
  Forall wellFormed ss /\ List.NoDup (map r_siteId ss) /\
  (forall s id, In s ss -> r_siteId s = JsString id -> id ∉ seen).
Proof.
  induction ss as [|s ss IH]; intros seen; cbn [validateFrom map].
  - split; [intros _ | reflexivity].
    repeat split; [constructor | constructor | intros s id []].
  - destruct (validSiteId (r_siteId s)) as [id|] eqn:Hid.
    + apply validSiteId_Some in Hid. destruct Hid as [Hid Hne].
      destruct (decide (id ∈ seen)) as [Hseen|Hfresh].
      { split; [discriminate |]. intros (_ & _ & H).
        exfalso. apply (H s id); [now left | assumption | assumption]. }
      destruct (validOffset (r_offset s)) eqn:Hoff; cbn [negb].
      2:{ split; [discriminate |]. intros (Hwf & _).
          inversion Hwf as [|? ? (_ & Ho & _) _]; subst.
          apply validOffset_true in Ho. congruence. }
      destruct (validDefault (r_default s)) eqn:Hdef; cbn [negb].
      2:{ split; [discriminate |]. intros (Hwf & _).
          inversion Hwf as [|? ? (_ & _ & Hd) _]; subst.
          apply validDefault_true in Hd. congruence. }
      rewrite IH. apply validOffset_true in Hoff. apply validDefault_true in Hdef.
      split.
      * intros (Hwf & Hnd & Hout). repeat split.
        -- constructor; [| assumption]. repeat split; eauto.
        -- constructor; [| assumption]. intros Hin.
           apply in_map_iff in Hin. destruct Hin as (s' & Hs' & Hin').
           rewrite Hid in Hs'. apply (Hout s' id Hin' Hs').
           apply elem_of_union. left. now apply elem_of_singleton.
        -- intros s' id' [<-|Hin'] Hs'.
           ++ rewrite Hid in Hs'. injection Hs' as <-. assumption.
           ++ intros Hx. apply (Hout s' id' Hin' Hs'). apply elem_of_union. now right.
      * intros (Hwf & Hnd & Hout).
        inversion Hwf; subst. inversion Hnd as [|? ? Hnotin Hnd']; subst.
        repeat split; [assumption | assumption |].
        intros s' id' Hin' Hs'. apply not_elem_of_union. split.
        -- intros Heq. apply elem_of_singleton in Heq. subst id'.
           apply Hnotin. rewrite Hid, <- Hs'. now apply in_map.
        -- apply (Hout s' id'); [now right | assumption].
    + split; [discriminate |]. intros (Hwf & _).
      inversion Hwf as [|? ? ((id & Hs & Hne) & _) _]; subst.
      assert (validSiteId (r_siteId s) = Some id) by (apply validSiteId_Some; auto).
      congruence.
Qed.

(** X3: [validateConfig] runs to the end exactly when every entry has a
    non-empty string as [siteId], a non-negative integer as [offset] and
    ["EMPTY"] or ["FILLED"] as [default], and no [siteId] occurs twice;
    [ip], [port] and [slaveId] are not looked at. *)
Theorem validateConfig_accepts_iff (SITES : list RawSite) :
  validateConfig SITES = None <->
  Forall wellFormed SITES /\ List.NoDup (map r_siteId SITES).
Proof.
  unfold validateConfig. rewrite validateFrom_None. split.
  - intros (H1 & H2 & _). auto.
  - intros (H1 & H2). repeat split; try assumption. intros s id _ _. apply not_elem_of_empty.
Qed.

(** ** Groups as a partition of the configuration *)

Lemma group_of_entry cfg g :
  In g (groupSitesByConnection cfg) ->
  exists ga, In (key g, ga) (fold_left addSite cfg []) /\ g = finishGroup ga /\
             accOk cfg (key g) ga.
Proof.
  intros Hin. unfold groupSitesByConnection in Hin.
  apply in_map_iff in Hin. destruct Hin as (ga & <- & Hin).
  apply in_map_iff in Hin. destruct Hin as ([k ga'] & Hsnd & Hin).
  cbn [snd] in Hsnd. subst ga'.
  destruct (groups_ok cfg) as (_ & _ & Hacc).
  pose proof (Hacc _ _ Hin) as Hok. destruct Hok as (Hk & _).
  exists ga. cbn [finishGroup key]. rewrite Hk.
  split; [assumption | split; [reflexivity | apply (Hacc _ _ Hin)]].
Qed.

Lemma group_keys cfg :
  map key (groupSitesByConnection cfg) = map fst (fold_left addSite cfg []).
Proof.
  unfold groupSitesByConnection.
  destruct (groups_ok cfg) as (_ & _ & Hacc). revert Hacc.
  generalize (fold_left addSite cfg []) as m.
  induction m as [|[k ga] m IH]; intros Hacc; [reflexivity |].
  cbn [map fst snd]. rewrite IH by (intros k' g' H; apply Hacc; now right).
  destruct (Hacc k ga (or_introl eq_refl)) as (Hk & _).
  cbn [finishGroup key]. now rewrite Hk.
Qed.

Lemma In_sitesOn s k cfg : In s (sitesOn k cfg) <-> In s cfg /\ connKey s = k.
Proof.
  unfold sitesOn. rewrite filter_In, String.eqb_eq. reflexivity.
Qed.

(** X4: the groups partition the configuration: their keys are pairwise
    different, every configured site is in the group of its connection
    key, and a group holds configured sites of its own key only. *)
Theorem groups_partition (cfg : list Site) :
  List.NoDup (map key (groupSitesByConnection cfg)) /\
  (forall s, In s cfg ->
     exists g, In g (groupSitesByConnection cfg) /\ key g = connKey s /\ In s (sites g)) /\
  (forall g s, In g (groupSitesByConnection cfg) -> In s (sites g) ->
     In s cfg /\ connKey s = key g).
Proof.
  destruct (groups_ok cfg) as (Hnd & Hcov & Hacc).
  split; [now rewrite group_keys |]. split.
  - intros s Hs. specialize (Hcov s Hs).
    apply in_map_iff in Hcov. destruct Hcov as ([k ga] & Hk & Hin).
    cbn [fst] in Hk. subst k.
    destruct (Hacc _ _ Hin) as (Hkey & Hsites & _).
    exists (finishGroup ga). repeat split.
    + unfold groupSitesByConnection. apply in_map. change ga with (snd (connKey s, ga)).
      now apply in_map.
    + exact Hkey.
    + cbn [finishGroup sites]. rewrite Hsites. apply In_sitesOn. auto.
  - intros g s Hg Hs. destruct (group_of_entry cfg g Hg) as (ga & _ & -> & _ & Hsites & _).
    cbn [finishGroup sites key] in *. rewrite Hsites in Hs.
    apply In_sitesOn in Hs. exact Hs.
Qed.

(** X5: for every site of a group, the index [offset - minOffset] lies
    inside the window the read asks for, so an answer of at least the
    requested length has a bit for the site (no missing value). *)
Theorem site_index_within_request (cfg : list Site) (g : Group) (s : Site) :
  In g (groupSitesByConnection cfg) ->
  In s (sites g) ->
  0 <= offset s - minOffset g < readLength g /\
  forall inputs : list bool,
    (Z.to_nat (readLength g) <= length inputs)%nat ->
    exists rawVal, inputAt inputs (offset s - minOffset g) = Some rawVal.
Proof.
  intros Hg Hs.
  destruct (group_of_entry cfg g Hg) as (ga & _ & -> & _ & _ & _ & Hmin & Hmax).
  cbn [finishGroup sites minOffset] in *.
  assert (Hidx : 0 <= offset s - a_minOffset ga < readLength (finishGroup ga)).
  { unfold readLength. cbn [finishGroup sites g_length].
    destruct Hmin as [Hlo (x & Hx & Hxe)]. destruct Hmax as [Hhi _].
    pose proof (Hlo s Hs). pose proof (Hhi s Hs).
    destruct (Nat.eqb_spec (length (a_sites ga)) 1) as [Hone|_]; [| lia].
    destruct (a_sites ga) as [|y [|? ?]]; try discriminate Hone.
    destruct Hs as [<-|[]]. destruct Hx as [<-|[]]. lia. }
  split; [exact Hidx |].
  intros inputs Hlen. unfold inputAt.
  destruct (Z.ltb_spec (offset s - a_minOffset ga) 0) as [|_]; [lia |].
  apply lookup_lt_is_Some_2. lia.
Qed.

(** ** Footprint of the read, and how failures arm the backoff *)

Ltac close_trace :=
  first [ symmetry; apply app_nil_r
        | rewrite <- ?app_assoc; cbn [app]; reflexivity ].

Ltac footprint_leaf :=
  step_state;
  split; [eexists; reflexivity |];
  split; [reflexivity |];
  split; [reflexivity |];
  split; [intros k Hk; rewrite ?lookup_insert_ne by congruence; reflexivity |];
  eexists; split; [close_trace |];
  repeat split; cbn; try lia; try reflexivity.

Lemma tagged_read_effects W g s :
  (exists res, fst (Tagged.readInputsForGroup W g s) = Ret res) /\
  debounceStates (snd (Tagged.readInputsForGroup W g s)) = debounceStates s /\
  api (snd (Tagged.readInputsForGroup W g s)) = api s /\
  (forall k, k <> key g ->
     modbusStates (snd (Tagged.readInputsForGroup W g s)) !! k = modbusStates s !! k) /\
  exists evs,
    trace (snd (Tagged.readInputsForGroup W g s)) = (trace s ++ evs)%list /\
    published evs = [] /\ errorsOf evs = [] /\ fetches evs = 0%nat /\
    (connects evs <= 1)%nat /\
    ((exists ms c, modbusStates s !! key g = Some ms /\ client ms = Some c) ->
     connects evs = 0%nat).
Proof.
  run_read.
  destruct (modbusStates s !! key g) as [ms|] eqn:Hms; step_state.
  - destruct (client ms) as [c|] eqn:Hc; step_state.
    + destruct (read_at W (S (tick s))) as [msg| |data]; footprint_leaf.
    + destruct (negb (lastAttemptMs ms =? 0)
                && (now_at W (tick s) - lastAttemptMs ms <? RECONNECT_BACKOFF_MS)).
      * footprint_leaf; intros (ms' & c' & [= <-] & Hc'); congruence.
      * step_state.
        destruct (connect_at W (S (tick s))) as [msg|]; step_state.
        -- footprint_leaf; intros (ms' & c' & [= <-] & Hc'); congruence.
        -- destruct (read_at W (S (S (tick s)))) as [msg| |data]; footprint_leaf;
             intros (ms' & c' & [= <-] & Hc'); congruence.
  - rewrite andb_false_l. step_state.
    destruct (connect_at W (S (tick s))) as [msg|]; step_state.
    + footprint_leaf; intros (ms' & c' & [=] & _).
    + destruct (read_at W (S (S (tick s)))) as [msg| |data]; footprint_leaf;
        intros (ms' & c' & [=] & _).
Qed.

Lemma tagged_ok_has_client W g s inputs :
  fst (Tagged.readInputsForGroup W g s) = Ret (Tagged.StatusOk inputs) ->
  exists ms c,
    modbusStates (snd (Tagged.readInputsForGroup W g s)) !! key g = Some ms /\
    client ms = Some c.
Proof.
  run_read.
  destruct (modbusStates s !! key g) as [ms|] eqn:Hms; step_state.
  - destruct (client ms) as [c|] eqn:Hc; step_state.
    + destruct (read_at W (S (tick s))) as [msg| |data]; step_state;
        try discriminate. intros _. eauto.
    + destruct (negb (lastAttemptMs ms =? 0)
                && (now_at W (tick s) - lastAttemptMs ms <? RECONNECT_BACKOFF_MS));
        step_state; [discriminate |].
      destruct (connect_at W (S (tick s))) as [msg|]; step_state; [discriminate |].
      destruct (read_at W (S (S (tick s)))) as [msg| |data]; step_state;
        try discriminate.
      intros _. eexists _, _. split; [apply lookup_insert_eq | reflexivity].
  - rewrite andb_false_l. step_state.
    destruct (connect_at W (S (tick s))) as [msg|]; step_state; [discriminate |].
    destruct (read_at W (S (S (tick s)))) as [msg| |data]; step_state;
      try discriminate.
    intros _. eexists _, _. split; [apply lookup_insert_eq | reflexivity].
Qed.

(** X6: the read that returns a status never throws; it leaves the debounce
    states, the RDS client and the connection states of other groups as
    they were; it returns [ok] only with a client stored for the group; it
    logs no error, sends nothing to RDS, and issues at most one
    [connectTCP], none at all when a client is stored. *)
Theorem tagged_read_footprint (W : World) (g : Group) (s : St) :
  (exists res, fst (Tagged.readInputsForGroup W g s) = Ret res) /\
  debounceStates (snd (Tagged.readInputsForGroup W g s)) = debounceStates s /\
  api (snd (Tagged.readInputsForGroup W g s)) = api s /\
  (forall k, k <> key g ->
     modbusStates (snd (Tagged.readInputsForGroup W g s)) !! k = modbusStates s !! k) /\
  (forall inputs,
     fst (Tagged.readInputsForGroup W g s) = Ret (Tagged.StatusOk inputs) ->
     exists ms c,
       modbusStates (snd (Tagged.readInputsForGroup W g s)) !! key g = Some ms /\
       client ms = Some c) /\
  exists evs,
    trace (snd (Tagged.readInputsForGroup W g s)) = (trace s ++ evs)%list /\
    published evs = [] /\ errorsOf evs = [] /\ fetches evs = 0%nat /\
    (connects evs <= 1)%nat /\
    ((exists ms c, modbusStates s !! key g = Some ms /\ client ms = Some c) ->
     connects evs = 0%nat).
Proof.
  destruct (tagged_read_effects W g s) as (H1 & H2 & H3 & H4 & H5).
  repeat (split; [assumption |]).
  split; [intros inputs; apply tagged_ok_has_client | exact H5].
Qed.

(** X7: a refused connect arms the backoff: it is answered with the error
    status, whose text is [connect failed: ] and the error's message (the
    error's name when the message is empty); the group is left without a
    client and with the time of the call as its last attempt; and a second
    read less than [RECONNECT_BACKOFF_MS] later returns [backoff] without
    any I/O and without touching the stored state. *)
Theorem failed_connect_arms_backoff (W : World) (g : Group) (s : St) (msg : string) :
  match modbusStates s !! key g with
  | Some ms => client ms = None /\
               (lastAttemptMs ms = 0 \/
                RECONNECT_BACKOFF_MS <= now_at W (tick s) - lastAttemptMs ms)
  | None => True
  end ->
  connect_at W (S (tick s)) = Some msg ->
  now_at W (tick s) <> 0 ->
  now_at W (S (S (tick s))) - now_at W (tick s) < RECONNECT_BACKOFF_MS ->
  let s1 := snd (Tagged.readInputsForGroup W g s) in
  fst (Tagged.readInputsForGroup W g s)
  = Ret (Tagged.StatusError ("connect failed: " ++ messageOf (Error msg))) /\
  modbusStates s1 !! key g = Some (mkModbusState None (now_at W (tick s))) /\
  fst (Tagged.readInputsForGroup W g s1) = Ret Tagged.StatusBackoff /\
  trace (snd (Tagged.readInputsForGroup W g s1)) = trace s1 /\
  modbusStates (snd (Tagged.readInputsForGroup W g s1)) = modbusStates s1.
Proof.
  intros Hpre Hconn Hnz Hwin s1. subst s1.
  rewrite (tagged_connect_failure W g s msg Hpre Hconn). cbn [fst snd].
  split; [reflexivity |]. split; [apply lookup_insert_eq |].
  rewrite (tagged_backoff_window W g _ (mkModbusState None (now_at W (tick s))));
    cbn [modbusStates tick client lastAttemptMs];
    [auto | apply lookup_insert_eq | reflexivity | assumption | assumption].
Qed.

(** X8: a rejected read arms the backoff: it is answered with the error
    status, whose text is [readDiscreteInputs failed: ] and the error's
    message (the error's name when the message is empty); the client is
    dropped with the time of the failure on record, and a second read less
    than [RECONNECT_BACKOFF_MS] after that time returns [backoff] without
    any I/O. *)
Theorem failed_read_arms_backoff
    (W : World) (g : Group) (s : St) (ms : ModbusState) (c : Client) (msg : string) :
  modbusStates s !! key g = Some ms ->
  client ms = Some c ->
  read_at W (S (tick s)) = ReadError msg ->
  now_at W (S (S (S (tick s)))) <> 0 ->
  now_at W (S (S (S (S (tick s))))) - now_at W (S (S (S (tick s))))
    < RECONNECT_BACKOFF_MS ->
  let s1 := snd (Tagged.readInputsForGroup W g s) in
  fst (Tagged.readInputsForGroup W g s)
  = Ret (Tagged.StatusError ("readDiscreteInputs failed: " ++ messageOf (Error msg))) /\
  modbusStates s1 !! key g
  = Some (mkModbusState None (now_at W (S (S (S (tick s)))))) /\
  fst (Tagged.readInputsForGroup W g s1) = Ret Tagged.StatusBackoff /\
  trace (snd (Tagged.readInputsForGroup W g s1)) = trace s1 /\
  modbusStates (snd (Tagged.readInputsForGroup W g s1)) = modbusStates s1.
Proof.
  intros Hms Hc Hread Hnz Hwin s1. subst s1.
  rewrite (tagged_read_error W g s ms c msg Hms Hc Hread). cbn [fst snd].
  split; [reflexivity |]. split; [apply lookup_insert_eq |].
  rewrite (tagged_backoff_window W g _
             (mkModbusState None (now_at W (S (S (S (tick s)))))));
    cbn [modbusStates tick client lastAttemptMs];
    [auto | apply lookup_insert_eq | reflexivity | assumption | assumption].
Qed.

(** An error whose message is empty is reported by its name: a refused
    connect and a rejected read, both with [new Error('')]. *)
Example empty_message_is_reported_by_name :
  let W := sampleWorld (fun _ => 1000000) (fun _ => Some "") (fun _ => ReadError "")
                       (fun _ => FetchRejects "down") in
  let c := mkClient "10.6.44.70" 502 1000 255 in
  fst (Tagged.readInputsForGroup W pickGroup (sampleSt ∅ None "en"))
  = Ret (Tagged.StatusError "connect failed: Error") /\
  fst (Tagged.readInputsForGroup W pickGroup
         (sampleSt {[ key pickGroup := mkModbusState (Some c) 1000 ]} None "en"))
  = Ret (Tagged.StatusError "readDiscreteInputs failed: Error").
Proof. split; vm_compute; reflexivity. Qed.

(** ** The sync cycle as a whole *)

(** What one pass over a site does to the state. *)
Lemma syncSite_effect W g inputs site s :
  exists s' evs b,
    syncSite W g inputs site s = (Ret tt, s') /\
    trace s' = (trace s ++ evs)%list /\
    published evs = [(siteId site, b)] /\
    modbusStates s' = modbusStates s /\
    (forall k, k <> siteId site -> debounceStates s' !! k = debounceStates s !! k) /\
    (debounceStates s !! siteId site = None -> b = defaultToBool (sdefault site)).
Proof.
  unfold syncSite.
  destruct (inputAt inputs (offset site - minOffset g)) as [rawVal|].
  - unfold bind, ask, withDebounce. step_state.
    pose proof (update_other_site site rawVal (now_at W (tick s)) (debounceStates s)) as Hfr.
    assert (Habs : debounceStates s !! siteId site = None ->
                   fst (updateDebouncedState site rawVal (now_at W (tick s))
                          (debounceStates s)) = defaultToBool (sdefault site)).
    { intros Hm. unfold updateDebouncedState, stateOf. rewrite Hm. cbn.
      destruct (Bool.eqb rawVal (defaultToBool (sdefault site))); reflexivity. }
    destruct (updateDebouncedState site rawVal (now_at W (tick s)) (debounceStates s))
      as [e d] eqn:Hup. cbn [fst snd] in *.
    match goal with |- context [writeWorksiteState W ?a ?b ?c ?d] =>
      destruct (writeWorksiteState_publishes W a b c d)
        as (s' & -> & Hm & Hd & evs & Ht & Hp)
    end.
    cbn [modbusStates debounceStates trace] in *.
    exists s', evs, e. repeat split; try assumption.
    intros k Hk. rewrite Hd. now apply Hfr.
  - unfold bind at 1. unfold emit at 1. step_state.
    unfold bind at 1. unfold withDebounce at 1. step_state.
    match goal with |- context [setSitesDefault W ?ss ?ctx ?s0] =>
      destruct (setSitesDefault_publishes W ctx ss s0)
        as (s' & -> & Hm & Hd & evs & Ht & Hp)
    end.
    cbn [modbusStates debounceStates trace map] in *.
    eexists s', _, _. split; [reflexivity |].
    split; [rewrite Ht, <- app_assoc; reflexivity |].
    split; [cbn [app published]; rewrite Hp; reflexivity |].
    split; [assumption |]. split; [| reflexivity].
    intros k Hk. rewrite Hd. apply reset_lookup_other.
    cbn [map]. intros [E|[]]. congruence.
Qed.

Lemma forEach_syncSite_effect W g inputs ss : forall s,
  exists s' evs,
    forEach ss (syncSite W g inputs) s = (Ret tt, s') /\
    trace s' = (trace s ++ evs)%list /\
    map fst (published evs) = map siteId ss /\
    modbusStates s' = modbusStates s /\
    (Forall (fun site => debounceStates s !! siteId site = None) ss ->
     List.NoDup (map siteId ss) ->
     published evs = map defaultWrite ss).
Proof.
  induction ss as [|site ss IH]; intros s; cbn [forEach map].
  - exists s, []. split; [reflexivity |]. split; [symmetry; apply app_nil_r |].
    repeat split; auto.
  - unfold bind.
    destruct (syncSite_effect W g inputs site s)
      as (s1 & evs1 & b & -> & Ht1 & Hp1 & Hm1 & Hd1 & Hb1).
    destruct (IH s1) as (s2 & evs2 & -> & Ht2 & Hp2 & Hm2 & Hdef2).
    exists s2, (evs1 ++ evs2)%list. split; [reflexivity |].
    split; [rewrite Ht2, Ht1, app_assoc; reflexivity |].
    split; [rewrite published_app, Hp1, map_app, Hp2; reflexivity |].
    split; [congruence |].
    intros Hall Hnd. inversion Hall as [|? ? Hsite Hrest]; subst.
    inversion Hnd as [|? ? Hnotin Hnd']; subst.
    rewrite published_app, Hp1, (Hb1 Hsite). cbn [app]. unfold defaultWrite at 1.
    f_equal. apply Hdef2; [| assumption].
    apply List.Forall_forall. intros site' Hin'.
    rewrite Hd1; [apply (proj1 (List.Forall_forall _ _) Hrest _ Hin') |].
    intros E. apply Hnotin. rewrite <- E. now apply in_map.
Qed.

Lemma tagged_syncGroup_effect W g s :
  exists s' evs,
    Tagged.syncGroup W g s = (Ret tt, s') /\
    trace s' = (trace s ++ evs)%list /\
    ((fst (Tagged.readInputsForGroup W g s) = Ret Tagged.StatusBackoff /\
      published evs = []) \/
     map fst (published evs) = map siteId (sites g)).
Proof.
  destruct (tagged_read_effects W g s)
    as ((res & Hres) & _ & _ & _ & evs0 & Ht0 & Hp0 & _).
  unfold Tagged.syncGroup. unfold bind at 1.
  destruct (Tagged.readInputsForGroup W g s) as [r s1]. cbn [fst snd] in *. subst r.
  destruct res as [inputs| |message].
  - destruct (forEach_syncSite_effect W g inputs (sites g) s1)
      as (s2 & evs & -> & Ht & Hp & _).
    exists s2, (evs0 ++ evs)%list. split; [reflexivity |].
    split; [rewrite Ht, Ht0, app_assoc; reflexivity |].
    right. rewrite published_app, Hp0. exact Hp.
  - exists s1, evs0. split; [reflexivity |]. split; [assumption |]. left. auto.
  - unfold bind, emit, withDebounce. step_state.
    match goal with |- context [setSitesDefault W ?ss ?ctx ?s0] =>
      destruct (setSitesDefault_publishes W ctx ss s0)
        as (s2 & -> & _ & _ & evs & Ht & Hp)
    end.
    cbn [trace] in Ht.
    exists s2, (evs0 ++ EvConsoleError (LogGroupError (key g) message) :: evs)%list.
    split; [reflexivity |].
    split; [rewrite Ht, Ht0, <- !app_assoc; reflexivity |].
    right. rewrite published_app, Hp0. cbn [app published]. rewrite Hp.
    rewrite map_map. reflexivity.
Qed.

Lemma tagged_syncGroup_returns W g s :
  exists s', Tagged.syncGroup W g s = (Ret tt, s').
Proof.
  destruct (tagged_syncGroup_effect W g s) as (s' & _ & H & _). eauto.
Qed.

Lemma throwing_syncGroup_returns W g s :
  exists s', Throwing.syncGroup W g s = (Ret tt, s').
Proof.
  unfold Throwing.syncGroup. unfold bind at 1, try_catch, bind at 1.
  destruct (Throwing.readInputsForGroup W g s) as [[inputs|e] s1].
  - unfold ret at 1. cbv beta iota zeta.
    destruct (forEach_syncSite_effect W g inputs (sites g) s1) as (s2 & evs & -> & _).
    eauto.
  - unfold ret at 1. cbv beta iota zeta. unfold bind, withDebounce. step_state.
    match goal with |- context [setSitesDefault W ?ss ?ctx ?s0] =>
      destruct (setSitesDefault_publishes W ctx ss s0) as (s2 & -> & _)
    end.
    eauto.
Qed.

Lemma forEach_returns {A} (body : A -> M unit) :
  (forall x s, exists s', body x s = (Ret tt, s')) ->
  forall xs s, exists s', forEach xs body s = (Ret tt, s').
Proof.
  intros Hb xs. induction xs as [|x xs IH]; intros s; cbn [forEach].
  - eexists. reflexivity.
  - unfold bind. destruct (Hb x s) as (s1 & ->). apply IH.
Qed.

Lemma initialLogin_returns W s : exists s', initialLogin W s = (Ret tt, s').
Proof.
  unfold initialLogin, bind, getApi.
  destruct (hasSession (sessionId (api s))); [eexists; reflexivity |].
  unfold try_catch. destruct (login W s) as [[[]|e] s1]; eexists; reflexivity.
Qed.

(** X9: a sync cycle never throws, in either copy, whatever Modbus and RDS
    answer: every failure below it is turned into a log line or a default. *)
Theorem syncOnce_never_throws (W : World) (groups : list Group) (s : St) :
  fst (Tagged.syncOnce W groups s) = Ret tt /\
  fst (Throwing.syncOnce W groups s) = Ret tt.
Proof.
  split.
  - unfold Tagged.syncOnce, bind.
    destruct (initialLogin_returns W s) as (s1 & ->).
    destruct (forEach_returns (Tagged.syncGroup W) (tagged_syncGroup_returns W)
                groups s1) as (s2 & ->).
    reflexivity.
  - unfold Throwing.syncOnce, bind.
    destruct (initialLogin_returns W s) as (s1 & ->).
    destruct (forEach_returns (Throwing.syncGroup W) (throwing_syncGroup_returns W)
                groups s1) as (s2 & ->).
    reflexivity.
Qed.

(** X10: on each tick the loop body of a group either finds the read in
    backoff and writes nothing, or writes every site of the group exactly
    once, in the order of the group. *)
Theorem group_tick_writes_each_site_once (W : World) (g : Group) (s : St) :
  exists evs,
    fst (Tagged.syncGroup W g s) = Ret tt /\
    trace (snd (Tagged.syncGroup W g s)) = (trace s ++ evs)%list /\
    ((fst (Tagged.readInputsForGroup W g s) = Ret Tagged.StatusBackoff /\
      published evs = []) \/
     map fst (published evs) = map siteId (sites g)).
Proof.
  destruct (tagged_syncGroup_effect W g s) as (s' & evs & -> & Ht & Hp).
  exists evs. auto.
Qed.

(** X11: when no site of a group has a debounce state (as after an error
    tick) and site identifiers are unique, the next successful read
    publishes the default of every site, whatever bits the PLC returns. *)
Theorem recovery_tick_publishes_defaults
    (W : World) (g : Group) (s s1 : St) (inputs : list bool) :
  Tagged.readInputsForGroup W g s = (Ret (Tagged.StatusOk inputs), s1) ->
  List.NoDup (map siteId (sites g)) ->
  (forall site, In site (sites g) -> debounceStates s !! siteId site = None) ->
  exists evs,
    fst (Tagged.syncGroup W g s) = Ret tt /\
    trace (snd (Tagged.syncGroup W g s)) = (trace s1 ++ evs)%list /\
    published evs = map defaultWrite (sites g).
Proof.
  intros Hread Hnd Habs.
  destruct (tagged_read_effects W g s) as (_ & Hd & _).
  rewrite Hread in Hd. cbn [snd] in Hd.
  destruct (forEach_syncSite_effect W g inputs (sites g) s1)
    as (s2 & evs & Hrun & Ht & _ & _ & Hdef).
  assert (Tagged.syncGroup W g s = (Ret tt, s2)) as ->.
  { unfold Tagged.syncGroup. unfold bind at 1. rewrite Hread. exact Hrun. }
  exists evs. cbn [fst snd]. split; [reflexivity |]. split; [assumption |].
  apply Hdef; [| assumption].
  apply List.Forall_forall. intros site Hin. rewrite Hd. now apply Habs.
Qed.

(** ** The RDS client: cookie, session and traffic *)

Lemma strip_prefix_Some p : forall s rest,
  strip_prefix p s = Some rest <-> s = p ++ rest.
Proof.
  induction p as [|a p IH]; intros s rest; cbn [strip_prefix String.append].
  - split; [intros [= ->] | intros ->]; reflexivity.
  - destruct s as [|b s]; [split; discriminate |].
    destruct (Ascii.eqb_spec a b) as [->|Hne].
    + rewrite IH. split; [intros -> | intros [= ->]]; reflexivity.
    + split; [discriminate | intros [= E _]; congruence].
Qed.

Lemma upto_semicolon_split s :
  exists post,
    s = upto_semicolon s ++ post /\
    (post = "" \/ exists rest, post = String ";" rest) /\
    ~ In ";"%char (list_ascii_of_string (upto_semicolon s)).
Proof.
  induction s as [|c s (post & Hs & Hpost & Hno)]; cbn [upto_semicolon].
  - exists "". cbn. auto.
  - destruct (Ascii.eqb_spec c ";") as [->|Hne].
    + exists (String ";" s). cbn. split; [reflexivity |]. split; [eauto | tauto].
    + exists post. cbn [list_ascii_of_string].
      split; [rewrite Hs at 1; reflexivity |]. split; [assumption |].
      intros [E|Hin]; [congruence | contradiction].
Qed.

Lemma match_here_Some s tok :
  match_here s = Some tok ->
  tok <> "" /\ ~ In ";"%char (list_ascii_of_string tok) /\
  exists post, s = "JSESSIONID=" ++ tok ++ post /\
               (post = "" \/ exists rest, post = String ";" rest).
Proof.
  unfold match_here.
  destruct (strip_prefix "JSESSIONID=" s) as [rest|] eqn:Hp; [| discriminate].
  apply strip_prefix_Some in Hp.
  destruct (upto_semicolon_split rest) as (post & Hrest & Hpost & Hno).
  destruct (upto_semicolon rest) as [|c t] eqn:Hu; [discriminate |].
  intros [= <-]. split; [discriminate |]. split; [assumption |].
  exists post. split; [| assumption]. rewrite Hp. f_equal. exact Hrest.
Qed.

Lemma match_here_None s c rest :
  match_here s = None -> s = "JSESSIONID=" ++ String c rest -> c = ";"%char.
Proof.
  unfold match_here. intros H Hs.
  apply strip_prefix_Some in Hs. rewrite Hs in H. cbn [upto_semicolon] in H.
  destruct (Ascii.eqb_spec c ";"); [assumption | discriminate].
Qed.

Lemma match_JSESSIONID_sound h : forall tok,
  match_JSESSIONID h = Some tok ->
  tok <> "" /\ ~ In ";"%char (list_ascii_of_string tok) /\
  exists pre post, h = pre ++ "JSESSIONID=" ++ tok ++ post /\
                   (post = "" \/ exists rest, post = String ";" rest).
Proof.
  induction h as [|c h IH]; intros tok; cbn [match_JSESSIONID].
  - destruct (match_here "") as [t|] eqn:Hh; [| discriminate].
    intros [= ->]. destruct (match_here_Some _ _ Hh) as (H1 & H2 & post & H3 & H4).
    repeat split; try assumption. exists "", post. auto.
  - destruct (match_here (String c h)) as [t|] eqn:Hh.
    + intros [= ->]. destruct (match_here_Some _ _ Hh) as (H1 & H2 & post & H3 & H4).
      repeat split; try assumption. exists "", post. auto.
    + intros H. destruct (IH tok H) as (H1 & H2 & pre & post & H3 & H4).
      repeat split; try assumption. exists (String c pre), post.
      split; [rewrite H3; reflexivity | assumption].
Qed.

Lemma match_JSESSIONID_complete h :
  match_JSESSIONID h = None ->
  forall pre c rest, h = pre ++ "JSESSIONID=" ++ String c rest -> c = ";"%char.
Proof.
  induction h as [|a h IH]; cbn [match_JSESSIONID].
  - destruct (match_here "") eqn:Hh; [discriminate |]. intros _ pre c rest Hs.
    destruct pre; discriminate Hs.
  - destruct (match_here (String a h)) eqn:Hh; [discriminate |].
    intros Hn pre c rest Hs. destruct pre as [|b pre].
    + apply (match_here_None _ c rest Hh). exact Hs.
    + assert (E : String b pre ++ "JSESSIONID=" ++ String c rest
                  = String b (pre ++ "JSESSIONID=" ++ String c rest)) by reflexivity.
      rewrite E in Hs. injection Hs as _ Hs. now apply (IH Hn pre c rest).
Qed.

(** X15: the cookie matcher of [login].  A token it returns is not empty,
    holds no semicolon, follows an occurrence of [JSESSIONID=] in the
    header and ends at the end of the header or at a semicolon; it returns
    nothing only when every occurrence of [JSESSIONID=] is followed by a
    semicolon (or by nothing). *)
Theorem match_JSESSIONID_spec (h : string) :
  (forall tok, match_JSESSIONID h = Some tok ->
     tok <> "" /\ ~ In ";"%char (list_ascii_of_string tok) /\
     exists pre post, h = pre ++ "JSESSIONID=" ++ tok ++ post /\
                      (post = "" \/ exists rest, post = String ";" rest)) /\
  (match_JSESSIONID h = None ->
   forall pre c rest, h = pre ++ "JSESSIONID=" ++ String c rest -> c = ";"%char).
Proof.
  split; [apply match_JSESSIONID_sound | apply match_JSESSIONID_complete].
Qed.

Lemma token_is_session h tok :
  match_JSESSIONID h = Some tok -> hasSession (Some tok) = true.
Proof.
  intros H. destruct (match_JSESSIONID_sound h tok H) as (Hne & _).
  cbn. destruct (String.eqb_spec tok ""); [contradiction | reflexivity].
Qed.

(** The outcome of [login] for each answer of the server. *)
Lemma login_cases W s :
  match fetch_at W (tick s) with
  | FetchRejects msg =>
      fst (login W s) = Throw (FetchError msg) /\ api (snd (login W s)) = api s
  | FetchResolves r =>
      if ok r then
        match match setCookie r with Some h => match_JSESSIONID h | None => None end with
        | Some tok =>
            sessionId (api (snd (login W s))) = Some tok /\
            hasSession (Some tok) = true /\
            fst (login W s) = match JSON_parse W (body r) with
                              | Some _ => Ret tt
                              | None => Throw SyntaxError
                              end
        | None =>
            sessionId (api (snd (login W s))) = None /\
            fst (login W s) = Throw MissingSessionCookie
        end
      else
        fst (login W s) = Throw (LoginStatusError (status r)) /\
        api (snd (login W s)) = api s
  end.
Proof.
  run_api. step_state.
  destruct (fetch_at W (tick s)) as [msg|r]; step_state; [auto |].
  destruct (ok r); cbn [negb]; step_state; [| auto].
  destruct (setCookie r) as [h|]; [| step_state; auto].
  destruct (match_JSESSIONID h) as [tok|] eqn:Hm; step_state; [| auto].
  pose proof (token_is_session h tok Hm).
  destruct (JSON_parse W (body r)); step_state; auto.
Qed.

Lemma login_returns_with_session W s s1 :
  login W s = (Ret tt, s1) -> hasSession (sessionId (api s1)) = true.
Proof.
  intros Hl. pose proof (login_cases W s) as H. rewrite Hl in H. cbn [fst snd] in H.
  destruct (fetch_at W (tick s)) as [msg|r]; [destruct H; discriminate |].
  destruct (ok r); [| destruct H; discriminate].
  destruct (match setCookie r with Some h => match_JSESSIONID h | None => None end);
    [| destruct H; discriminate].
  destruct H as (-> & Hs & _). exact Hs.
Qed.

(** A call made without a session starts with [login]; when that throws,
    so does the call, and no request is sent. *)
Lemma apiCall_first_login_failed W path options s e s1 :
  hasSession (sessionId (api s)) = false ->
  login W s = (Throw e, s1) ->
  apiCall W path options s = (Throw e, s1).
Proof.
  intros Hs Hl. unfold apiCall, bind, getApi, ret. cbv beta. rewrite Hs, Hl.
  reflexivity.
Qed.

(** When that [login] returns, the call goes on as a call made in the
    state it leaves. *)
Lemma apiCall_after_first_login W path options s s0 :
  hasSession (sessionId (api s)) = false ->
  login W s = (Ret tt, s0) ->
  apiCall W path options s = apiCall W path options s0.
Proof.
  intros Hs Hl. pose proof (login_returns_with_session W s s0 Hl) as Hs0.
  unfold apiCall, bind, getApi, ret. cbv beta. rewrite Hs, Hs0, Hl. reflexivity.
Qed.

(** C5: the re-login policy of every call of [apiCall], whatever the state
    it is made in.  A call made without a session starts with [login]: when
    that throws, the call throws the same and sends nothing.  In every other
    case the call sends its request from a state [s0] with a session (the
    state of the call, or the one the first [login] left), and from there:
    a rejected request ends the call; a first status other than 401 and 403
    (400 included) is settled at once, without [login] and without a second
    request; a first status 401 or 403 is followed by [login], and when it
    throws, the call throws the same and sends nothing more, when it
    returns, the request is sent exactly once more with the new cookie and
    its answer is settled.  Settling is final: it asks nothing more of the
    world and throws the status of any response that is not 2xx, a second
    401 or 403 included. *)
Theorem relogin_policy
    (W : World) (path : string) (options : Options) (s : St) :
  (hasSession (sessionId (api s)) = false ->
   forall e s1, login W s = (Throw e, s1) ->
                apiCall W path options s = (Throw e, s1)) /\
  ((exists e s1, hasSession (sessionId (api s)) = false /\ login W s = (Throw e, s1)) \/
   (exists s0, sendsFrom W s s0)) /\
  (forall s0, sendsFrom W s s0 ->
     let url := apiHost (api s0) ++ path in
     let h := requestHeaders (api s0) options in
     let sent := mkSt (modbusStates s0) (debounceStates s0) (api s0) (S (tick s0))
                      (trace s0 ++ [EvFetch url (mkOptions (method options) (Some h)
                                                   (payload options))]) in
     let logged := mkSt (modbusStates s0) (debounceStates s0) (api s0) (S (tick s0))
                        (trace s0 ++ [EvFetch url (mkOptions (method options) (Some h)
                                                     (payload options));
                                      EvConsoleLog LogSessionExpired]) in
     hasSession (sessionId (api s0)) = true /\
     (forall msg, fetch_at W (tick s0) = FetchRejects msg ->
        apiCall W path options s = (Throw (FetchError msg), sent)) /\
     (forall r1, fetch_at W (tick s0) = FetchResolves r1 ->
        (sessionExpired r1 = true <-> status r1 = 401 \/ status r1 = 403) /\
        (sessionExpired r1 = false -> apiCall W path options s = settle W r1 sent) /\
        (sessionExpired r1 = true ->
         forall e s3, login W logged = (Throw e, s3) ->
                      apiCall W path options s = (Throw e, s3)) /\
        (sessionExpired r1 = true ->
         forall s3, login W logged = (Ret tt, s3) ->
           apiCall W path options s
           = bind (fetch W url
                     (mkOptions (method options)
                        (Some (<[ "Cookie" := cookieOf (sessionId (api s3)) ]> h))
                        (payload options)))
                  (settle W) s3))) /\
  (forall r s0,
     tick (snd (settle W r s0)) = tick s0 /\
     api (snd (settle W r s0)) = api s0 /\
     (trace (snd (settle W r s0)) = trace s0 \/
      trace (snd (settle W r s0))
      = (trace s0 ++ [EvConsoleError (LogBody400 (body r))])%list) /\
     (ok r = false -> fst (settle W r s0) = Throw (ApiStatusError (status r) None))).
Proof.
  split; [intros Hs e s1 Hl; now apply apiCall_first_login_failed |].
  split.
  { destruct (hasSession (sessionId (api s))) eqn:Hs.
    - right. exists s. left. split; [exact Hs | reflexivity].
    - destruct (login W s) as [[[]|e] s1] eqn:Hl.
      + right. exists s1. right. split; [exact Hs | exact Hl].
      + left. exists e, s1. split; reflexivity. }
  split; [| intros r s0; apply settle_is_final].
  intros s0 Hfrom url h sent logged. subst url h sent logged.
  assert (hasSession (sessionId (api s0)) = true /\
          apiCall W path options s = apiCall W path options s0) as [Hs0 ->].
  { destruct Hfrom as [[Hs ->] | [Hs Hl]]; [split; [exact Hs | reflexivity] |].
    split; [now apply (login_returns_with_session W s) |].
    now apply apiCall_after_first_login. }
  split; [exact Hs0 |].
  split; [intros msg Hf; now apply apiCall_first_rejected |].
  intros r1 Hf.
  destruct (relogin_with_session W path options s0 r1 Hs0 Hf) as (H1 & H2 & H3 & H4 & _).
  repeat split; try assumption; apply H1.
Qed.

(** A call made without a session to an RDS that refuses the login: the
    call throws the error of [login], and the only request is the login's. *)
Example cold_start_login_refused :
  let s := sampleSt ∅ None "en" in
  let run := setWorkSiteEmpty (steadyWorld 500 None "") "PICK-01" s in
  fst run = Throw (LoginStatusError 500) /\
  tick (snd run) = 1%nat /\
  map (fun ev => match ev with
                 | EvFetch url _ => url
                 | EvInvoke MLogin => "login()"
                 | EvInvoke _ => "write"
                 | _ => "log"
                 end) (trace (snd run))
  = ["write"; "login()"; "http://10.6.44.2:8080/admin/login"].
Proof. repeat split; vm_compute; reflexivity. Qed.

(** X16: what [login] leaves behind.  A rejected request or a status that
    is not 2xx throws and leaves the client, its old token included, as it
    was; a 2xx answer without a token throws and clears the token; a 2xx
    answer with a token stores it (a token that counts as a session) and
    returns or throws according to whether the body is JSON. *)
Theorem login_session_outcomes (W : World) (s : St) :
  match fetch_at W (tick s) with
  | FetchRejects msg =>
      fst (login W s) = Throw (FetchError msg) /\ api (snd (login W s)) = api s
  | FetchResolves r =>
      if ok r then
        match match setCookie r with Some h => match_JSESSIONID h | None => None end with
        | Some tok =>
            sessionId (api (snd (login W s))) = Some tok /\
            hasSession (Some tok) = true /\
            fst (login W s) = match JSON_parse W (body r) with
                              | Some _ => Ret tt
                              | None => Throw SyntaxError
                              end
        | None =>
            sessionId (api (snd (login W s))) = None /\
            fst (login W s) = Throw MissingSessionCookie
        end
      else
        fst (login W s) = Throw (LoginStatusError (status r)) /\
        api (snd (login W s)) = api s
  end.
Proof. apply login_cases. Qed.

(** X17: a call made without a session logs in first: when that [login]
    throws, the call throws the same and the request is never sent; when it
    returns, the client has a session and the call goes on exactly as a
    call made with that session. *)
Theorem apiCall_without_session_logs_in_first
    (W : World) (path : string) (options : Options) (s : St) :
  hasSession (sessionId (api s)) = false ->
  (forall e s1, login W s = (Throw e, s1) -> apiCall W path options s = (Throw e, s1)) /\
  (forall s1, login W s = (Ret tt, s1) ->
     hasSession (sessionId (api s1)) = true /\
     apiCall W path options s = apiCall W path options s1).
Proof.
  intros Hs. split.
  - intros e s1 Hl. unfold apiCall, bind, getApi, ret. cbv beta. rewrite Hs, Hl.
    reflexivity.
  - intros s1 Hl. pose proof (login_returns_with_session W s s1 Hl) as Hs1.
    split; [exact Hs1 |].
    unfold apiCall, bind, getApi, ret. cbv beta. rewrite Hs, Hs1, Hl. reflexivity.
Qed.

Lemma fetches_app a b : fetches (a ++ b) = (fetches a + fetches b)%nat.
Proof. unfold fetches. now rewrite List.filter_app, length_app. Qed.

Lemma logins_app a b : logins (a ++ b) = (logins a + logins b)%nat.
Proof. unfold logins. now rewrite List.filter_app, length_app. Qed.

Lemma fetches_cons e l :
  fetches (e :: l) = ((if isFetch e then 1 else 0) + fetches l)%nat.
Proof. unfold fetches. cbn [List.filter]. destruct (isFetch e); reflexivity. Qed.

Lemma logins_cons e l :
  logins (e :: l) = ((if isLogin e then 1 else 0) + logins l)%nat.
Proof. unfold logins. cbn [List.filter]. destruct (isLogin e); reflexivity. Qed.

Ltac count_traffic :=
  repeat (rewrite fetches_cons || rewrite fetches_app
          || rewrite logins_cons || rewrite logins_app);
  cbn [isFetch isLogin];
  change (fetches []) with 0%nat; change (logins []) with 0%nat;
  lia.

Ltac traffic_leaf :=
  step_state; eexists;
  split; [rewrite <- ?app_assoc; cbn [app]; reflexivity |];
  repeat split; reflexivity.

Lemma login_traffic W s :
  exists evs,
    trace (snd (login W s)) = (trace s ++ evs)%list /\
    fetches evs = 1%nat /\ logins evs = 1%nat.
Proof.
  run_api. step_state.
  destruct (fetch_at W (tick s)) as [msg|r]; [traffic_leaf |]. step_state.
  destruct (ok r); cbn [negb]; [| traffic_leaf]. step_state.
  destruct (match setCookie r with Some h => match_JSESSIONID h | None => None end);
    [| traffic_leaf]. step_state.
  destruct (JSON_parse W (body r)); traffic_leaf.
Qed.

Lemma settle_traffic W r s :
  exists evs,
    trace (snd (settle W r s)) = (trace s ++ evs)%list /\
    fetches evs = 0%nat /\ logins evs = 0%nat.
Proof.
  destruct (settle_is_final W r s) as (_ & _ & [Ht|Ht] & _); rewrite Ht.
  - exists []. now rewrite app_nil_r.
  - eexists. split; [reflexivity |]. split; reflexivity.
Qed.

Lemma apiCall_traffic_with_session W path options s :
  hasSession (sessionId (api s)) = true ->
  exists evs,
    trace (snd (apiCall W path options s)) = (trace s ++ evs)%list /\
    (logins evs <= 1)%nat /\ (fetches evs <= logins evs + 2)%nat.
Proof.
  intros Hs.
  destruct (fetch_at W (tick s)) as [msg|r1] eqn:Hf.
  - unfold apiCall, fetch. unfold_monad. step_state.
    rewrite Hs. step_state. rewrite Hf.
    eexists. split; [reflexivity |]. count_traffic.
  - destruct (sessionExpired r1) eqn:Hx.
    + match goal with |- context [apiCall W path options s] =>
        pose (logged := mkSt (modbusStates s) (debounceStates s) (api s) (S (tick s))
                (trace s ++ [EvFetch (apiHost (api s) ++ path)
                               (mkOptions (method options)
                                  (Some (requestHeaders (api s) options))
                                  (payload options));
                             EvConsoleLog LogSessionExpired]))
      end.
      destruct (login_traffic W logged) as (evs1 & Ht1 & Hf1 & Hl1).
      destruct (login W logged) as [[[]|e] s3] eqn:Hl; cbn [snd] in Ht1;
        subst logged; cbn [trace] in Ht1.
      * rewrite (apiCall_resend W path options s r1 s3 Hs Hf Hx Hl).
        unfold bind, fetch at 1, bind, emit, ask. step_state.
        destruct (fetch_at W (tick s3)) as [msg|r2]; step_state.
        -- unfold throw. cbn [snd trace]. rewrite Ht1.
           eexists. split; [rewrite <- !app_assoc; cbn [app]; reflexivity |].
           count_traffic.
        -- unfold ret at 1. cbv beta iota.
           match goal with |- context [settle W r2 ?s4] =>
             destruct (settle_traffic W r2 s4) as (evs2 & Ht2 & Hf2 & Hl2)
           end.
           rewrite Ht2. cbn [trace]. rewrite Ht1.
           eexists. split; [rewrite <- !app_assoc; cbn [app]; reflexivity |].
           count_traffic.
      * rewrite (apiCall_relogin_failed W path options s r1 e s3 Hs Hf Hx Hl).
        cbn [snd]. rewrite Ht1.
        eexists. split; [rewrite <- !app_assoc; cbn [app]; reflexivity |].
        count_traffic.
    + rewrite (apiCall_no_trigger W path options s r1 Hs Hf Hx).
      match goal with |- context [settle W r1 ?s1] =>
        destruct (settle_traffic W r1 s1) as (evs & Ht & Hf0 & Hl0)
      end.
      rewrite Ht. cbn [trace].
      eexists. split; [rewrite <- !app_assoc; cbn [app]; reflexivity |].
      count_traffic.
Qed.

(** X18: one call sends little: at most two [login]s (one when it starts
    with a session) and at most two requests besides those of the logins. *)
Theorem apiCall_traffic_bound
    (W : World) (path : string) (options : Options) (s : St) :
  exists evs,
    trace (snd (apiCall W path options s)) = (trace s ++ evs)%list /\
    (logins evs <= 2)%nat /\
    (fetches evs <= logins evs + 2)%nat /\
    (hasSession (sessionId (api s)) = true -> (logins evs <= 1)%nat).
Proof.
  destruct (hasSession (sessionId (api s))) eqn:Hs.
  - destruct (apiCall_traffic_with_session W path options s Hs) as (evs & Ht & Hl & Hf).
    exists evs. repeat split; try assumption; lia.
  - destruct (login_traffic W s) as (evs1 & Ht1 & Hf1 & Hl1).
    destruct (login W s) as [[[]|e] s1] eqn:Hl; cbn [snd] in Ht1.
    + pose proof (login_returns_with_session W s s1 Hl) as Hs1.
      assert (apiCall W path options s = apiCall W path options s1) as ->.
      { unfold apiCall, bind, getApi, ret. cbv beta. rewrite Hs, Hs1, Hl. reflexivity. }
      destruct (apiCall_traffic_with_session W path options s1 Hs1)
        as (evs2 & Ht2 & Hl2 & Hf2).
      exists (evs1 ++ evs2)%list. rewrite Ht2, Ht1, app_assoc.
      split; [reflexivity |]. rewrite logins_app, fetches_app.
      repeat split; try lia; try discriminate.
    + assert (apiCall W path options s = (Throw e, s1)) as ->.
      { unfold apiCall, bind, getApi, ret. cbv beta. rewrite Hs, Hl. reflexivity. }
      exists evs1. cbn [snd]. split; [assumption |].
      repeat split; try lia; try discriminate.
Qed.

(** X19: [setSitesDefault] never throws, even when every RDS call fails;
    it publishes the default of each site once, in order, and leaves the
    Modbus and debounce states alone. *)
Theorem setSitesDefault_confined
    (W : World) (ss : list Site) (context : string) (s : St) :
  fst (setSitesDefault W ss context s) = Ret tt /\
  modbusStates (snd (setSitesDefault W ss context s)) = modbusStates s /\
  debounceStates (snd (setSitesDefault W ss context s)) = debounceStates s /\
  exists evs,
    trace (snd (setSitesDefault W ss context s)) = (trace s ++ evs)%list /\
    published evs = map defaultWrite ss.
Proof.
  destruct (setSitesDefault_publishes W context ss s) as (s' & -> & Hm & Hd & Hev).
  cbn [fst snd]. auto.
Qed.

(** ** Fallbacks, the copy whose read throws, and worked instances *)

(** X12: on a tick where the read of a group returns the status [error],
    the loop body logs the error once, deletes the debounce state of every
    site of the group, leaves the debounce state of every other site as it
    was, and publishes the default of each site of the group, in order. *)
Theorem error_tick_falls_back_to_defaults
    (W : World) (g : Group) (s s1 : St) (msg : string) :
  Tagged.readInputsForGroup W g s = (Ret (Tagged.StatusError msg), s1) ->
  exists evs,
    fst (Tagged.syncGroup W g s) = Ret tt /\
    trace (snd (Tagged.syncGroup W g s))
    = (trace s1 ++ EvConsoleError (LogGroupError (key g) msg) :: evs)%list /\
    published evs = map defaultWrite (sites g) /\
    (forall site, In site (sites g) ->
       debounceStates (snd (Tagged.syncGroup W g s)) !! siteId site = None) /\
    (forall k, ~ In k (map siteId (sites g)) ->
       debounceStates (snd (Tagged.syncGroup W g s)) !! k = debounceStates s !! k).
Proof.
  intros Hread.
  destruct (tagged_read_effects W g s) as (_ & Hd0 & _).
  rewrite Hread in Hd0. cbn [snd] in Hd0.
  assert (exists s' evs,
            Tagged.syncGroup W g s = (Ret tt, s') /\
            trace s' = (trace s1 ++ EvConsoleError (LogGroupError (key g) msg) :: evs)%list /\
            published evs = map defaultWrite (sites g) /\
            debounceStates s' = resetDebounceForSites (sites g) (debounceStates s1))
    as (s' & evs & -> & Ht & Hp & Hd).
  { unfold Tagged.syncGroup. unfold bind at 1. rewrite Hread.
    unfold bind, emit, withDebounce. step_state.
    match goal with |- context [setSitesDefault W ?ss ?ctx ?s0] =>
      destruct (setSitesDefault_publishes W ctx ss s0)
        as (s' & -> & _ & Hd & evs & Ht & Hp)
    end.
    cbn [debounceStates trace] in *.
    exists s', evs. split; [reflexivity |].
    split; [rewrite Ht, <- app_assoc; reflexivity | auto]. }
  exists evs. cbn [fst snd]. rewrite Hd, Hd0.
  split; [reflexivity |]. split; [assumption |]. split; [assumption |]. split.
  - intros site Hin. apply reset_lookup_member. now apply in_map.
  - intros k Hk. now apply reset_lookup_other.
Qed.

(** X13: the copy whose read throws has no backoff status: on every tick
    inside the backoff window its loop body deletes the debounce states of
    the group and publishes every default again. *)
Theorem older_copy_rewrites_defaults_during_backoff
    (W : World) (g : Group) (s : St) (ms : ModbusState) :
  modbusStates s !! key g = Some ms ->
  client ms = None ->
  now_at W (tick s) - lastAttemptMs ms < RECONNECT_BACKOFF_MS ->
  exists evs,
    fst (Throwing.syncGroup W g s) = Ret tt /\
    trace (snd (Throwing.syncGroup W g s)) = (trace s ++ evs)%list /\
    published evs = map defaultWrite (sites g) /\
    (forall site, In site (sites g) ->
       debounceStates (snd (Throwing.syncGroup W g s)) !! siteId site = None).
Proof.
  intros Hms Hc Hwin.
  pose proof (throwing_backoff_window W g s ms Hms Hc Hwin) as Hread.
  assert (exists s' evs,
            Throwing.syncGroup W g s = (Ret tt, s') /\
            trace s' = (trace s ++ evs)%list /\
            published evs = map defaultWrite (sites g) /\
            debounceStates s' = resetDebounceForSites (sites g) (debounceStates s))
    as (s' & evs & -> & Ht & Hp & Hd).
  { unfold Throwing.syncGroup. unfold bind at 1, try_catch, bind at 1.
    rewrite Hread. unfold ret at 1. cbv beta iota zeta.
    unfold bind, withDebounce. step_state.
    match goal with |- context [setSitesDefault W ?ss ?ctx ?s0] =>
      destruct (setSitesDefault_publishes W ctx ss s0)
        as (s' & -> & _ & Hd & evs & Ht & Hp)
    end.
    cbn [debounceStates trace] in *.
    exists s', evs. split; [reflexivity |]. repeat split; assumption. }
  exists evs. cbn [fst snd]. rewrite Hd.
  repeat split; try assumption.
  intros site Hin. apply reset_lookup_member. now apply in_map.
Qed.

(** X14: in the copy whose read throws, a response that is not of the form
    [{data: [...]}] is thrown inside the [try]: the failure is logged, the
    client is closed and dropped, and the time of the failure is recorded. *)
Theorem older_copy_closes_on_malformed_response
    (W : World) (g : Group) (s : St) (ms : ModbusState) (c : Client) :
  modbusStates s !! key g = Some ms ->
  client ms = Some c ->
  read_at W (S (tick s)) = ReadMalformed ->
  (exists e, fst (Throwing.readInputsForGroup W g s) = Throw e) /\
  modbusStates (snd (Throwing.readInputsForGroup W g s)) !! key g
  = Some (mkModbusState None (now_at W (S (S (S (tick s)))))) /\
  exists evs,
    trace (snd (Throwing.readInputsForGroup W g s)) = (trace s ++ evs)%list /\
    In (EvClose (key g)) evs /\
    length (errorsOf evs) = 1%nat.
Proof.
  intros Hms Hc Hread.
  rewrite (throwing_malformed_response W g s ms c Hms Hc Hread). cbn [fst snd].
  split; [eexists; reflexivity |].
  split; [apply lookup_insert_eq |].
  eexists. split; [reflexivity |]. split; [right; right; now left | reflexivity].
Qed.

(** X20: what one pass over a site writes is what the debouncer holds: with
    a bit for the site, the value written is the effective value stored for
    the site after the pass; without one, the site's default is written and
    no state is stored for the site. *)
Theorem written_value_is_stored_value
    (W : World) (g : Group) (inputs : list bool) (site : Site) (s : St) :
  exists evs b,
    fst (syncSite W g inputs site s) = Ret tt /\
    trace (snd (syncSite W g inputs site s)) = (trace s ++ evs)%list /\
    published evs = [(siteId site, b)] /\
    match inputAt inputs (offset site - minOffset g) with
    | Some _ =>
        exists st, debounceStates (snd (syncSite W g inputs site s)) !! siteId site
                   = Some st /\ effectiveVal st = b
    | None =>
        debounceStates (snd (syncSite W g inputs site s)) !! siteId site = None /\
        b = defaultToBool (sdefault site)
    end.
Proof.
  unfold syncSite.
  destruct (inputAt inputs (offset site - minOffset g)) as [rawVal|].
  - unfold bind, ask, withDebounce. step_state.
    assert (Hst : snd (updateDebouncedState site rawVal (now_at W (tick s))
                         (debounceStates s)) !! siteId site
                  = Some (stateOf site
                            (snd (updateDebouncedState site rawVal (now_at W (tick s))
                                    (debounceStates s))))).
    { unfold updateDebouncedState. cbn [snd]. unfold stateOf.
      now rewrite lookup_insert_eq. }
    pose proof (effective_after_update site rawVal (now_at W (tick s)) (debounceStates s))
      as Heff.
    destruct (updateDebouncedState site rawVal (now_at W (tick s)) (debounceStates s))
      as [e d]. cbn [fst snd] in *.
    match goal with |- context [writeWorksiteState W ?a ?b ?c ?d] =>
      destruct (writeWorksiteState_publishes W a b c d)
        as (s' & -> & _ & Hd & evs & Ht & Hp)
    end.
    cbn [debounceStates trace fst snd] in *.
    exists evs, e. repeat split; try assumption.
    rewrite Hd. eexists. split; [exact Hst | exact Heff].
  - unfold bind, emit, withDebounce. step_state.
    match goal with |- context [setSitesDefault W ?ss ?ctx ?s0] =>
      destruct (setSitesDefault_publishes W ctx ss s0)
        as (s' & -> & _ & Hd & evs & Ht & Hp)
    end.
    cbn [debounceStates trace map fst snd] in *.
    eexists _, _. split; [reflexivity |].
    split; [rewrite Ht, <- app_assoc; reflexivity |].
    split; [cbn [app published]; rewrite Hp; reflexivity |].
    split; [| reflexivity].
    rewrite Hd. apply reset_lookup_member. now left.
Qed.

Lemma reset_then_update_witness :
  let site := mkSite "PICK-01" "10.6.44.70" 502 255 9 EMPTY in
  let m : gmap string DebounceState := {[ "PICK-01" := mkDebounce (Some 1) true ]} in
  fst (updateDebouncedState site true 7 (resetDebounceForSites (sites pickDropGroup) m))
  = false /\
  snd (updateDebouncedState site true 7 (resetDebounceForSites (sites pickDropGroup) m))
    !! "PICK-01"
  = Some (mkDebounce (Some 7) false).
Proof.
  intros site m.
  apply (reset_then_update_starts_from_default (sites pickDropGroup) site true 7 m).
  left. reflexivity.
Defined.

Lemma opposite_needs_sustained_disagreement_witness :
  let site := mkSite "PICK-01" "10.6.44.70" 502 255 9 EMPTY in
  let samples := [(false, 0); (true, 500); (true, 2500)] in
  exists earlier since run,
    samples = (earlier ++ (true, since) :: run)%list /\
    Forall (disagrees site) run /\
    Exists (lateEnough since) run.
Proof.
  intros site samples.
  apply (opposite_needs_sustained_disagreement site samples ∅).
  - reflexivity.
  - vm_compute. reflexivity.
Defined.

Lemma site_index_within_request_witness :
  let far := mkSite "PICK-04" "10.6.44.70" 502 255 12 EMPTY in
  let g := mkGroup "10.6.44.70:502:255" "10.6.44.70" 502 255 spreadSites 9 4 in
  0 <= offset far - minOffset g < readLength g /\
  forall inputs : list bool,
    (Z.to_nat (readLength g) <= length inputs)%nat ->
    exists rawVal, inputAt inputs (offset far - minOffset g) = Some rawVal.
Proof.
  intros far g. apply (site_index_within_request spreadSites g far).
  - vm_compute. left. reflexivity.
  - right. left. reflexivity.
Defined.

Lemma failed_connect_arms_backoff_witness :
  let W := sampleWorld (fun _ => 1000000) (fun _ => Some "ECONNREFUSED")
                       (fun _ => ReadMalformed) (fun _ => FetchRejects "down") in
  let s := sampleSt ∅ (Some "0A1B2C") "en" in
  let s1 := snd (Tagged.readInputsForGroup W pickGroup s) in
  fst (Tagged.readInputsForGroup W pickGroup s)
  = Ret (Tagged.StatusError "connect failed: ECONNREFUSED") /\
  modbusStates s1 !! key pickGroup = Some (mkModbusState None 1000000) /\
  fst (Tagged.readInputsForGroup W pickGroup s1) = Ret Tagged.StatusBackoff /\
  trace (snd (Tagged.readInputsForGroup W pickGroup s1)) = trace s1 /\
  modbusStates (snd (Tagged.readInputsForGroup W pickGroup s1)) = modbusStates s1.
Proof.
  intros W s.
  apply (failed_connect_arms_backoff W pickGroup s "ECONNREFUSED").
  - exact I.
  - reflexivity.
  - discriminate.
  - reflexivity.
Defined.

Lemma failed_read_arms_backoff_witness :
  let W := sampleWorld (fun _ => 1000000) (fun _ => None)
                       (fun _ => ReadError "Timed out") (fun _ => FetchRejects "down") in
  let c := mkClient "10.6.44.70" 502 1000 255 in
  let s := sampleSt {[ key pickGroup := mkModbusState (Some c) 1000 ]} (Some "0A1B2C") "en" in
  let s1 := snd (Tagged.readInputsForGroup W pickGroup s) in
  fst (Tagged.readInputsForGroup W pickGroup s)
  = Ret (Tagged.StatusError "readDiscreteInputs failed: Timed out") /\
  modbusStates s1 !! key pickGroup = Some (mkModbusState None 1000000) /\
  fst (Tagged.readInputsForGroup W pickGroup s1) = Ret Tagged.StatusBackoff /\
  trace (snd (Tagged.readInputsForGroup W pickGroup s1)) = trace s1 /\
  modbusStates (snd (Tagged.readInputsForGroup W pickGroup s1)) = modbusStates s1.
Proof.
  intros W c s.
  apply (failed_read_arms_backoff W pickGroup s (mkModbusState (Some c) 1000) c "Timed out").
  - reflexivity.
  - reflexivity.
  - reflexivity.
  - discriminate.
  - reflexivity.
Defined.

Lemma recovery_tick_publishes_defaults_witness :
  let W := sampleWorld (fun _ => 1000000) (fun _ => None)
                       (fun _ => ReadData [true; false; false])
                       (fun _ => FetchResolves (mkResponse 200 None "{}")) in
  let c := mkClient "10.6.44.70" 502 1000 255 in
  let s := sampleSt {[ key pickDropGroup := mkModbusState (Some c) 1000 ]}
                    (Some "0A1B2C") "en" in
  exists evs,
    fst (Tagged.syncGroup W pickDropGroup s) = Ret tt /\
    trace (snd (Tagged.syncGroup W pickDropGroup s))
    = (trace (snd (Tagged.readInputsForGroup W pickDropGroup s)) ++ evs)%list /\
    published evs = [("PICK-01", false); ("DROP-01", true)].
Proof.
  intros W c s.
  apply (recovery_tick_publishes_defaults W pickDropGroup s
           (snd (Tagged.readInputsForGroup W pickDropGroup s)) [true; false; false]).
  - reflexivity.
  - repeat constructor; cbn; intuition discriminate.
  - intros site _. reflexivity.
Defined.

Lemma error_tick_falls_back_to_defaults_witness :
  let W := sampleWorld (fun _ => 1000000) (fun _ => Some "ECONNREFUSED")
                       (fun _ => ReadMalformed)
                       (fun _ => FetchResolves (mkResponse 200 None "{}")) in
  let s := sampleSt ∅ (Some "0A1B2C") "en" in
  let s1 := snd (Tagged.readInputsForGroup W pickDropGroup s) in
  exists evs,
    fst (Tagged.syncGroup W pickDropGroup s) = Ret tt /\
    trace (snd (Tagged.syncGroup W pickDropGroup s))
    = (trace s1 ++ EvConsoleError (LogGroupError (key pickDropGroup)
                                     "connect failed: ECONNREFUSED") :: evs)%list /\
    published evs = map defaultWrite (sites pickDropGroup) /\
    (forall site, In site (sites pickDropGroup) ->
       debounceStates (snd (Tagged.syncGroup W pickDropGroup s)) !! siteId site = None) /\
    (forall k, ~ In k (map siteId (sites pickDropGroup)) ->
       debounceStates (snd (Tagged.syncGroup W pickDropGroup s)) !! k
       = debounceStates s !! k).
Proof.
  intros W s s1.
  apply (error_tick_falls_back_to_defaults W pickDropGroup s s1
           "connect failed: ECONNREFUSED").
  reflexivity.
Defined.

Lemma older_copy_rewrites_defaults_witness :
  let W := sampleWorld (fun _ => 1000000) (fun _ => None) (fun _ => ReadData [true])
                       (fun _ => FetchResolves (mkResponse 200 None "{}")) in
  let s := sampleSt {[ key pickDropGroup := mkModbusState None 999000 ]}
                    (Some "0A1B2C") "en" in
  exists evs,
    fst (Throwing.syncGroup W pickDropGroup s) = Ret tt /\
    trace (snd (Throwing.syncGroup W pickDropGroup s)) = (trace s ++ evs)%list /\
    published evs = map defaultWrite (sites pickDropGroup) /\
    (forall site, In site (sites pickDropGroup) ->
       debounceStates (snd (Throwing.syncGroup W pickDropGroup s)) !! siteId site = None).
Proof.
  intros W s.
  apply (older_copy_rewrites_defaults_during_backoff W pickDropGroup s
           (mkModbusState None 999000)); reflexivity.
Defined.

Lemma older_copy_closes_on_malformed_response_witness :
  let W := sampleWorld (fun _ => 1000000) (fun _ => None) (fun _ => ReadMalformed)
                       (fun _ => FetchRejects "down") in
  let c := mkClient "10.6.44.70" 502 1000 255 in
  let s := sampleSt {[ key pickGroup := mkModbusState (Some c) 1000 ]} (Some "0A1B2C") "en" in
  (exists e, fst (Throwing.readInputsForGroup W pickGroup s) = Throw e) /\
  modbusStates (snd (Throwing.readInputsForGroup W pickGroup s)) !! key pickGroup
  = Some (mkModbusState None 1000000) /\
  exists evs,
    trace (snd (Throwing.readInputsForGroup W pickGroup s)) = (trace s ++ evs)%list /\
    In (EvClose (key pickGroup)) evs /\
    length (errorsOf evs) = 1%nat.
Proof.
  intros W c s.
  apply (older_copy_closes_on_malformed_response W pickGroup s
           (mkModbusState (Some c) 1000) c); reflexivity.
Defined.

Lemma apiCall_without_session_witness :
  let W := steadyWorld 200 (Some "JSESSIONID=0A1B2C; Path=/; HttpOnly") "{}" in
  let s := sampleSt ∅ None "en" in
  (forall e s1, login W s = (Throw e, s1) ->
     apiCall W "/api/work-sites/worksiteFiled" (writeOptions "PICK-01") s = (Throw e, s1)) /\
  (forall s1, login W s = (Ret tt, s1) ->
     hasSession (sessionId (api s1)) = true /\
     apiCall W "/api/work-sites/worksiteFiled" (writeOptions "PICK-01") s
     = apiCall W "/api/work-sites/worksiteFiled" (writeOptions "PICK-01") s1).
Proof.
  intros W s.
  apply (apiCall_without_session_logs_in_first W "/api/work-sites/worksiteFiled"
           (writeOptions "PICK-01") s).
  reflexivity.
Defined.

Lemma relogin_policy_witness :
  let s := sampleSt ∅ None "en" in
  let run := apiCall coldStartWorld "/api/work-sites/worksiteUnFiled"
                     (writeOptions "PICK-01") s in
  fst run = Throw (ApiStatusError 401 None) /\
  tick (snd run) = 4%nat /\
  sessionId (api (snd run)) = Some "NEW" /\
  logins (trace (snd run)) = 2%nat /\
  fetches (trace (snd run)) = 4%nat.
Proof.
  intros s run. subst run.
  pose (s0 := snd (login coldStartWorld s)).
  pose (logged :=
          mkSt (modbusStates s0) (debounceStates s0) (api s0) (S (tick s0))
               (trace s0 ++
                [EvFetch (apiHost (api s0) ++ "/api/work-sites/worksiteUnFiled")
                   (mkOptions "POST"
                      (Some (requestHeaders (api s0) (writeOptions "PICK-01")))
                      (Some (WorkSiteIds ["PICK-01"])));
                 EvConsoleLog LogSessionExpired])%list).
  destruct (relogin_policy coldStartWorld "/api/work-sites/worksiteUnFiled"
              (writeOptions "PICK-01") s) as (_ & _ & Hfrom & _).
  destruct (Hfrom s0 (or_intror (conj eq_refl eq_refl))) as (_ & _ & Hsent).
  destruct (Hsent (mkResponse 401 None "") eq_refl) as (_ & _ & _ & Hresend).
  rewrite (Hresend eq_refl (snd (login coldStartWorld logged)) eq_refl).
  repeat split.
Defined.
